(** * Gutentator backend: a shallow embedding of [backend_fastapi.py]

    The development follows the source file top to bottom: Python strings
    and the two boundary-marker regular expressions, the cleanup helper,
    [textwrap.dedent], the in-memory store with its two counters, the
    ingestion route, the context assembler and the websocket handler.

    Conventions.
    - A Python [str] is a list of Unicode code points ([N]).
    - A Python [dict] is an association list in insertion order (a Python
      dict iterates in insertion order); [d[k] = v] on a fresh key appends.
    - An [async def] is modelled by the function it computes once every
      awaited call has returned; what the outside world answers (the HTTP
      fetch, the tokenizer-backed splitter, the websocket peer, the model
      capability) is an explicit argument.
    - The [print] calls of the source are debugging output and are left out. *)

From Stdlib Require Import Ascii String.
From Stdlib Require Import List NArith ZArith Lia Bool.
Import ListNotations.

Set Implicit Arguments.

(* ------------------------------------------------------------------ *)
(** * Python strings *)
(* ------------------------------------------------------------------ *)

Definition char := N.
Definition str := list char.

(** An ASCII literal of the source, read as a Python [str]. *)
Definition py (s : string) : str := map N_of_ascii (list_ascii_of_string s).

Definition nl : char := 10%N.
Definition tab : char := 9%N.
Definition space : char := 32%N.

(** [str.isspace] on one code point (the whitespace table of CPython). *)
Definition is_space (c : char) : bool :=
  ((9 <=? c) && (c <=? 13) || (28 <=? c) && (c <=? 32)
   || (c =? 133) || (c =? 160) || (c =? 5760)
   || (8192 <=? c) && (c <=? 8202)
   || (c =? 8232) || (c =? 8233) || (c =? 8239) || (c =? 8287)
   || (c =? 12288))%N.

Fixpoint str_eqb (a b : str) : bool :=
  match a, b with
  | [], [] => true
  | x :: a', y :: b' => N.eqb x y && str_eqb a' b'
  | _, _ => false
  end.

(** [s[len(l):]] when [s.startswith(l)]. *)
Fixpoint strip_prefix (l s : str) : option str :=
  match l with
  | [] => Some s
  | x :: l' =>
      match s with
      | [] => None
      | y :: s' => if N.eqb x y then strip_prefix l' s' else None
      end
  end.

Definition startswith (l s : str) : bool :=
  match strip_prefix l s with Some _ => true | None => false end.

(** [s.find(l)]: index of the leftmost occurrence. *)
Fixpoint find (l s : str) : option nat :=
  if startswith l s then Some 0
  else match s with
       | [] => None
       | _ :: s' => option_map S (find l s')
       end.

(** [l in s] on strings. *)
Definition contains (l s : str) : bool :=
  match find l s with Some _ => true | None => false end.

Fixpoint lstrip (s : str) : str :=
  match s with
  | [] => []
  | c :: s' => if is_space c then lstrip s' else s
  end.

Definition rstrip (s : str) : str := rev (lstrip (rev s)).

(** [str.strip()] with no argument. *)
Definition strip (s : str) : str := rstrip (lstrip s).

(* ------------------------------------------------------------------ *)
(** * The fragment of [re] the source uses *)
(* ------------------------------------------------------------------ *)

Module Re.

(** Patterns built from escaped literal runs, [.+?] and [.+]; both patterns
    of the source are compiled with [re.DOTALL], so [.] is any character. *)
Inductive regex :=
| Lit (l : str)
| AnyPlusLazy
| AnyPlusGreedy
| Cat (r1 r2 : regex).

(** Backtracking matchers in continuation style: [k] is the rest of the
    pattern, the result is the text left after the whole match. *)
Fixpoint lazy_plus (k : str -> option str) (s : str) : option str :=
  match s with
  | [] => None
  | _ :: s' =>
      match k s' with
      | Some r => Some r
      | None => lazy_plus k s'
      end
  end.

Fixpoint greedy_plus (k : str -> option str) (s : str) : option str :=
  match s with
  | [] => None
  | _ :: s' =>
      match greedy_plus k s' with
      | Some r => Some r
      | None => k s'
      end
  end.

Fixpoint match_here (r : regex) (s : str) (k : str -> option str)
  : option str :=
  match r with
  | Lit l => match strip_prefix l s with Some s' => k s' | None => None end
  | AnyPlusLazy => lazy_plus k s
  | AnyPlusGreedy => greedy_plus k s
  | Cat r1 r2 => match_here r1 s (fun s' => match_here r2 s' k)
  end.

(** [Pattern.sub(repl, s)]: every leftmost non-overlapping match is
    replaced.  [skip] counts the characters of the current match that are
    still to be dropped; an empty match copies the next character. *)
Fixpoint sub_scan (r : regex) (repl : str) (skip : nat) (s : str) : str :=
  match skip with
  | S n =>
      match s with
      | [] => []
      | _ :: s' => sub_scan r repl n s'
      end
  | O =>
      match match_here r s Some with
      | Some rest =>
          repl ++
          match s with
          | [] => []
          | c :: s' =>
              match length s - length rest with
              | O => c :: sub_scan r repl 0 s'
              | S m => sub_scan r repl m s'
              end
          end
      | None =>
          match s with
          | [] => []
          | c :: s' => c :: sub_scan r repl 0 s'
          end
      end
  end.

Definition sub (r : regex) (repl s : str) : str := sub_scan r repl 0 s.

End Re.

(* ------------------------------------------------------------------ *)
(** * Helpers of the source *)
(* ------------------------------------------------------------------ *)

Definition HEADER_LIT : str := py "*** START OF THIS PROJECT GUTENBERG EBOOK".
Definition FOOTER_LIT : str := py "*** END OF THIS PROJECT GUTENBERG EBOOK".
Definition STARS : str := py "***".

(** [re.compile(r"\*\*\* START OF THIS PROJECT GUTENBERG EBOOK.+?\*\*\*", re.DOTALL)] *)
Definition GUTEN_HEADER : Re.regex :=
  Re.Cat (Re.Lit HEADER_LIT) (Re.Cat Re.AnyPlusLazy (Re.Lit STARS)).

(** [re.compile(r"\*\*\* END OF THIS PROJECT GUTENBERG EBOOK.+", re.DOTALL)] *)
Definition GUTEN_FOOTER : Re.regex :=
  Re.Cat (Re.Lit FOOTER_LIT) Re.AnyPlusGreedy.

Definition clean_gutenberg (raw : str) : str :=
  let raw := Re.sub GUTEN_HEADER [] raw in
  let raw := Re.sub GUTEN_FOOTER [] raw in
  strip raw.

(** The cleanup step as the specification words it: everything up to and
    including the START marker goes (the marker's [...] taken greedily, so
    up to the last [***] of the text), everything from the END marker
    onward goes, and the result is trimmed. *)
Fixpoint after_last (l s : str) : option str :=
  match s with
  | [] => strip_prefix l []
  | _ :: s' =>
      match after_last l s' with
      | Some r => Some r
      | None => strip_prefix l s
      end
  end.

Fixpoint before_first (l s : str) : str :=
  if startswith l s then []
  else match s with
       | [] => []
       | c :: s' => c :: before_first l s'
       end.

Definition spec_cleanup (raw : str) : str :=
  let body :=
    match find HEADER_LIT raw with
    | Some i =>
        match after_last STARS (skipn (i + length HEADER_LIT + 1) raw) with
        | Some rest => rest
        | None => raw
        end
    | None => raw
    end in
  strip (before_first FOOTER_LIT body).

(** [os.path.basename]: what follows the last slash. *)
Fixpoint until_slash (s : str) : str :=
  match s with
  | [] => []
  | c :: s' => if N.eqb c 47 then [] else c :: until_slash s'
  end.

Definition basename (p : str) : str := rev (until_slash (rev p)).

(* ------------------------------------------------------------------ *)
(** * [textwrap.dedent] *)
(* ------------------------------------------------------------------ *)

(** The implementation on the two compiled patterns
    [_whitespace_only_re] and [_leading_whitespace_re] (CPython up to
    3.13), line by line. *)
Module Textwrap.

(** The character class [[ \t]] of the two patterns of [textwrap]. *)
Definition is_blank (c : char) : bool := N.eqb c space || N.eqb c tab.

(** The lines of a text, newline characters removed. *)
Fixpoint split_nl (s : str) : list str :=
  match s with
  | [] => [[]]
  | c :: s' =>
      if N.eqb c nl then [] :: split_nl s'
      else match split_nl s' with
           | l :: ls => (c :: l) :: ls
           | [] => [[c]]
           end
  end.

Fixpoint join_nl (ls : list str) : str :=
  match ls with
  | [] => []
  | [l] => l
  | l :: ls' => l ++ nl :: join_nl ls'
  end.

(** [_whitespace_only_re]: under MULTILINE, a line made of one or more
    blanks and nothing else; [dedent] substitutes the empty string for it. *)
Definition whitespace_only (l : str) : bool :=
  match l with [] => false | _ => forallb is_blank l end.

Definition blank_out (l : str) : str := if whitespace_only l then [] else l.

(** [_leading_whitespace_re]: under MULTILINE, the run of blanks at the
    start of every line that holds something else than blanks. *)
Fixpoint leading_ws (l : str) : str :=
  match l with
  | [] => []
  | c :: l' => if is_blank c then c :: leading_ws l' else []
  end.

Definition has_text (l : str) : bool :=
  existsb (fun c => negb (is_blank c)) l.

Definition indents (lines : list str) : list str :=
  map leading_ws (filter has_text lines).

Fixpoint common_prefix (a b : str) : str :=
  match a, b with
  | x :: a', y :: b' => if N.eqb x y then x :: common_prefix a' b' else []
  | _, _ => []
  end.

(** The loop over [indents]: the margin is their longest common prefix. *)
Definition margin_of (ins : list str) : str :=
  match ins with
  | [] => []
  | i :: rest => fold_left common_prefix rest i
  end.

(** [re.sub(r'(?m)^' + margin, '', text)] on one line. *)
Definition remove_margin (margin l : str) : str :=
  match strip_prefix margin l with
  | Some l' => l'
  | None => l
  end.

Definition dedent (text : str) : str :=
  let lines := map blank_out (split_nl text) in
  let margin := margin_of (indents lines) in
  join_nl (map (remove_margin margin) lines).

End Textwrap.

(* ------------------------------------------------------------------ *)
(** * Exceptions and results *)
(* ------------------------------------------------------------------ *)

Inductive exn :=
| WebSocketDisconnect
| KeyError (key : Z)
| IndexError
| IntValueError (literal : str)      (* raised by [int(literal)] *)
| IndexValueError (x : Z)            (* raised by [list.index(x)] *)
| ValueError (msg : str)
| AttributeError (msg : str)
| HTTPStatusError (status : Z)       (* httpx, [raise_for_status] *)
| TransportError (msg : str)         (* httpx, transport fault *)
| APITimeoutError (msg : str)        (* model capability: timeout *)
| APIConnectionError (msg : str)     (* model capability: transport *)
| ValidationError (msg : str)        (* model capability: malformed output *)
| RuntimeError (msg : str)
| CancelledError.                    (* a BaseException, not an Exception *)

(** [isinstance(e, Exception)] *)
Definition is_Exception (e : exn) : bool :=
  match e with CancelledError => false | _ => true end.

Inductive result (A : Type) :=
| Ok (a : A)
| Raise (e : exn).
Arguments Ok {A} a.
Arguments Raise {A} e.

(** State threaded through calls that may raise; the state survives the
    exception, as a Python global does. *)
Definition M (S A : Type) : Type := S -> S * result A.

Definition ret {S A} (a : A) : M S A := fun s => (s, Ok a).
Definition raise {S A} (e : exn) : M S A := fun s => (s, Raise e).
Definition bind {S A B} (m : M S A) (k : A -> M S B) : M S B :=
  fun s => match m s with
           | (s', Ok a) => k a s'
           | (s', Raise e) => (s', Raise e)
           end.
Definition get {S} : M S S := fun s => (s, Ok s).
Definition modify {S} (f : S -> S) : M S unit := fun s => (f s, Ok tt).
Definition lift {S A} (r : result A) : M S A := fun s => (s, r).
Definition try_except {S A} (body : M S A) (handler : exn -> M S A) : M S A :=
  fun s => match body s with
           | (s', Ok a) => (s', Ok a)
           | (s', Raise e) => handler e s'
           end.

Notation "x <- c1 ;; c2" := (bind c1 (fun x => c2))
  (at level 61, c1 at next level, right associativity).
Notation "c1 ;;; c2" := (bind c1 (fun _ => c2))
  (at level 61, right associativity).

(* ------------------------------------------------------------------ *)
(** * In-memory stores *)
(* ------------------------------------------------------------------ *)

Definition dict (V : Type) : Type := list (Z * V).

Fixpoint dict_get {V} (k : Z) (d : dict V) : option V :=
  match d with
  | [] => None
  | (k', v) :: d' => if Z.eqb k k' then Some v else dict_get k d'
  end.

(** [k in d] *)
Definition dict_mem {V} (k : Z) (d : dict V) : bool :=
  match dict_get k d with Some _ => true | None => false end.

(** [d[k] = v]: an existing key keeps its place, a new one goes last. *)
Fixpoint dict_set {V} (k : Z) (v : V) (d : dict V) : dict V :=
  match d with
  | [] => [(k, v)]
  | (k', v') :: d' =>
      if Z.eqb k k' then (k, v) :: d' else (k', v') :: dict_set k v d'
  end.

Definition keys {V} (d : dict V) : list Z := map fst d.

(** [d[k]], raising [KeyError]. *)
Definition subscript {V} (d : dict V) (k : Z) : result V :=
  match dict_get k d with
  | Some v => Ok v
  | None => Raise (KeyError k)
  end.

Record Book := { url : str; title : str; chunks : list Z }.
Record Chunk := { book_id : Z; text : str; annotation : str }.

(** The module-level globals.  An [itertools.count] is the next value it
    will yield. *)
Record Store := {
  _book_id_counter : Z;
  _chunk_id_counter : Z;
  BOOKS : dict Book;
  CHUNKS : dict Chunk
}.

Definition initial_store : Store :=
  {| _book_id_counter := 1; _chunk_id_counter := 1; BOOKS := []; CHUNKS := [] |}.

(** [next(_book_id_counter)] and [next(_chunk_id_counter)] *)
Definition next_book_id : M Store Z := fun st =>
  ({| _book_id_counter := _book_id_counter st + 1;
      _chunk_id_counter := _chunk_id_counter st;
      BOOKS := BOOKS st; CHUNKS := CHUNKS st |},
   Ok (_book_id_counter st)).

Definition next_chunk_id : M Store Z := fun st =>
  ({| _book_id_counter := _book_id_counter st;
      _chunk_id_counter := _chunk_id_counter st + 1;
      BOOKS := BOOKS st; CHUNKS := CHUNKS st |},
   Ok (_chunk_id_counter st)).

Definition set_BOOKS (f : dict Book -> dict Book) (st : Store) : Store :=
  {| _book_id_counter := _book_id_counter st;
     _chunk_id_counter := _chunk_id_counter st;
     BOOKS := f (BOOKS st); CHUNKS := CHUNKS st |}.

Definition set_CHUNKS (f : dict Chunk -> dict Chunk) (st : Store) : Store :=
  {| _book_id_counter := _book_id_counter st;
     _chunk_id_counter := _chunk_id_counter st;
     BOOKS := BOOKS st; CHUNKS := f (CHUNKS st) |}.

(* ------------------------------------------------------------------ *)
(** * Fetching and splitting *)
(* ------------------------------------------------------------------ *)

(** What [httpx] hands back: status, the Content-Type header, the body. *)
Record Response := {
  status_code : Z;
  content_type : option str;
  body : str
}.

(** What the ingestion route reaches outside the process: the HTTP client
    and LangChain's tokenizer-backed splitter. *)
Record IngestEnv := {
  http_get : str -> result Response;
  split_text : str -> Z -> Z -> result (list str)
}.

(** [Response.raise_for_status]: anything but a 2xx status raises. *)
Definition raise_for_status (r : Response) : result unit :=
  if (200 <=? status_code r)%Z && (status_code r <=? 299)%Z
  then Ok tt else Raise (HTTPStatusError (status_code r)).

Definition NOT_PLAIN_TEXT : str :=
  py "URL does not look like plain" ++ [8209%N] ++ py "text; choose "
  ++ [8216%N] ++ py "Plain Text UTF" ++ [8209%N] ++ py "8" ++ [8217%N]
  ++ py " link.".

Definition fetch_gutenberg_text (env : IngestEnv) (u : str) : result str :=
  match http_get env u with
  | Raise e => Raise e
  | Ok r =>
      match raise_for_status r with
      | Raise e => Raise e
      | Ok _ =>
          let ct := match content_type r with Some v => v | None => [] end in
          if negb (contains (py "text") ct)
          then Raise (ValueError NOT_PLAIN_TEXT)
          else Ok (body r)
      end
  end.

Definition split_paragraphs (env : IngestEnv) (t : str)
  (max_tokens overlap : Z) : result (list str) :=
  split_text env t max_tokens overlap.

(* ------------------------------------------------------------------ *)
(** * Adjacent chunks *)
(* ------------------------------------------------------------------ *)

(** [list.index(x)] *)
Fixpoint index (x : Z) (l : list Z) : option nat :=
  match l with
  | [] => None
  | y :: l' => if Z.eqb y x then Some 0 else option_map S (index x l')
  end.

(** [l[i]] for an index that is not negative. *)
Definition item (l : list Z) (i : nat) : result Z :=
  match nth_error l i with
  | Some x => Ok x
  | None => Raise IndexError
  end.

Definition rbind {A B} (r : result A) (k : A -> result B) : result B :=
  match r with
  | Ok a => k a
  | Raise e => Raise e
  end.

Definition get_adjacent_texts (st : Store) (chunk_id : Z)
  : result (str * str) :=
  rbind (subscript (CHUNKS st) chunk_id) (fun chunk =>
  rbind (subscript (BOOKS st) (book_id chunk)) (fun book =>
  let book_chunks := chunks book in
  match index chunk_id book_chunks with
  | None => Raise (IndexValueError chunk_id)
  | Some idx =>
      rbind (if 0 <? idx
             then rbind (item book_chunks (idx - 1)) (fun c =>
                  rbind (subscript (CHUNKS st) c) (fun ch => Ok (text ch)))
             else Ok [])
        (fun prev_text =>
      rbind (if idx <? length book_chunks - 1
             then rbind (item book_chunks (idx + 1)) (fun c =>
                  rbind (subscript (CHUNKS st) c) (fun ch => Ok (text ch)))
             else Ok [])
        (fun next_text =>
      Ok (prev_text, next_text)))
  end)).

(* ------------------------------------------------------------------ *)
(** * Ingestion *)
(* ------------------------------------------------------------------ *)

Record IngestOut := { out_book_id : Z; out_chunks : list Z }.

(** One turn of the [for chunk_text in ...] loop. *)
Definition store_chunk (bid : Z) (chunk_text : str) : M Store unit :=
  cid <- next_chunk_id ;;
  modify (set_CHUNKS
            (dict_set cid {| book_id := bid; text := chunk_text;
                             annotation := [] |})) ;;;
  st <- get ;;
  book <- lift (subscript (BOOKS st) bid) ;;
  modify (set_BOOKS
            (dict_set bid {| url := url book; title := title book;
                             chunks := chunks book ++ [cid] |})).

Fixpoint store_chunks (bid : Z) (chunk_texts : list str) : M Store unit :=
  match chunk_texts with
  | [] => ret tt
  | t :: rest => store_chunk bid t ;;; store_chunks bid rest
  end.

Definition ingest (env : IngestEnv) (payload_url : str) : M Store IngestOut :=
  raw <- lift (fetch_gutenberg_text env payload_url) ;;
  let clean := clean_gutenberg raw in
  bid <- next_book_id ;;
  modify (set_BOOKS
            (dict_set bid {| url := payload_url;
                             title := basename payload_url;
                             chunks := [] |})) ;;;
  chunk_texts <- lift (split_paragraphs env clean 300 0) ;;
  store_chunks bid chunk_texts ;;;
  st <- get ;;
  book <- lift (subscript (BOOKS st) bid) ;;
  ret {| out_book_id := bid; out_chunks := chunks book |}.

(** A run of ingestion requests, each with what the outside world answers
    during that request; a failed request leaves the store as it stands. *)
Fixpoint ingest_all (calls : list (IngestEnv * str)) (st : Store) : Store :=
  match calls with
  | [] => st
  | (env, u) :: rest => ingest_all rest (fst (ingest env u st))
  end.

(* ------------------------------------------------------------------ *)
(** * The websocket handler *)
(* ------------------------------------------------------------------ *)

Record Vocab := { tricky_word : str; definition : str }.
Record Annotation := { summary : str; vocabs : list Vocab }.

Record Message := { role : str; content : str }.

Inductive Format := AnnotationFormat.

(** The keyword arguments of [client.responses.parse]; an argument the call
    does not pass is [None]. *)
Record Request := {
  model : str;
  input : list Message;
  text_format : Format;
  max_output_tokens : option Z
}.

Record ParsedResponse := { output_parsed : option Annotation }.

(** What the handler does to the outside world, in order. *)
Inductive event :=
| EvAccept
| EvClose (code : Z) (reason : option str)
| EvSendText (data : str)
| EvModelCall (req : Request).

(** The connection and the interpreter as one session sees them.  A
    websocket call either returns ([None]) or raises. *)
Record WsEnv := {
  query_params : list (str * str);
  on_accept : option exn;
  on_close : Z -> option str -> option exn;
  on_send_text : str -> option exn;
  responses_parse : Request -> result ParsedResponse;
  int_of_str : str -> option Z;          (* [int(s)], [None] on ValueError *)
  exc_str : exn -> str;                  (* [str(exc)] *)
  annotation_json : Annotation -> str    (* [annotation.json()] *)
}.

Record Session := { store : Store; trace : list event }.

Definition emit (e : event) : M Session unit :=
  modify (fun s => {| store := store s; trace := trace s ++ [e] |}).

Definition outcome (o : option exn) : M Session unit :=
  match o with
  | None => ret tt
  | Some e => raise e
  end.

Definition websocket_accept (w : WsEnv) : M Session unit :=
  emit EvAccept ;;; outcome (on_accept w).

Definition websocket_close (w : WsEnv) (code : Z) (reason : option str)
  : M Session unit :=
  emit (EvClose code reason) ;;; outcome (on_close w code reason).

Definition websocket_send_text (w : WsEnv) (data : str) : M Session unit :=
  emit (EvSendText data) ;;; outcome (on_send_text w data).

Definition client_responses_parse (w : WsEnv) (req : Request)
  : M Session ParsedResponse :=
  emit (EvModelCall req) ;;; lift (responses_parse w req).

(** [query_params.get(key, default)]: the last value given for the key. *)
Fixpoint qp_get (key default : str) (qs : list (str * str)) : str :=
  match qs with
  | [] => default
  | (k, v) :: qs' => qp_get key (if str_eqb k key then v else default) qs'
  end.

(** [int(s)] *)
Definition int (w : WsEnv) (s : str) : M Session Z :=
  match int_of_str w s with
  | Some z => ret z
  | None => raise (IntValueError s)
  end.

Definition SYSTEM_PROMPT : str :=
  py "You are a literary annotator. Provide clear, concise commentary ONLY for the text "
  ++ py "between the markers 'BEGIN SECTION TO EXPLICATE' and 'END SECTION TO EXPLICATE'. Use the "
  ++ py "surrounding context solely to inform your analysis; do not annotate it."
  ++ py "If the relevant section seems to be webpage code or title page etc your summary should just be three dots/ellipses (...) only.".

Definition DEFAULT_GOAL : str :=
  py "Explain archaic vocabulary and summarise the paragraph if not web code .".

(** The f-string of the handler, before [textwrap.dedent]. *)
Definition framed (prev_text chunk_text next_text goal : str) : str :=
  py "=== CONTEXT BEFORE ===" ++ nl :: prev_text ++ nl :: nl ::
  py "=== BEGIN SECTION TO EXPLICATE ===" ++ nl :: chunk_text ++ nl ::
  py "=== END SECTION TO EXPLICATE ===" ++ nl :: nl ::
  py "=== CONTEXT AFTER ===" ++ nl :: next_text ++ nl :: nl ::
  py "=== TASK ===" ++ nl :: goal ++ [nl].

Definition user_content (prev_text chunk_text next_text goal : str) : str :=
  Textwrap.dedent (framed prev_text chunk_text next_text goal).

Definition annotation_request (user : str) : Request :=
  {| model := py "gpt-4.1-nano-2025-04-14";
     input := [ {| role := py "system"; content := SYSTEM_PROMPT |};
                {| role := py "user"; content := user |} ];
     text_format := AnnotationFormat;
     max_output_tokens := None |}.

(** The body of the [try]. *)
Definition ws_try (w : WsEnv) (chunk_id : Z) (chunk : Chunk) : M Session unit :=
  let goal := qp_get (py "goal") DEFAULT_GOAL (query_params w) in
  max_out <- int w (qp_get (py "max_tokens") (py "256") (query_params w)) ;;
  s <- get ;;
  adj <- lift (get_adjacent_texts (store s) chunk_id) ;;
  let '(prev_text, next_text) := adj in
  let content := user_content prev_text (text chunk) next_text goal in
  response <- client_responses_parse w (annotation_request content) ;;
  match output_parsed response with
  | None => raise (AttributeError (py "'NoneType' object has no attribute 'json'"))
  | Some annotation =>
      websocket_send_text w (annotation_json w annotation) ;;;
      websocket_close w 1000 None
  end.

(** The two [except] clauses, in order. *)
Definition ws_except (w : WsEnv) (exc : exn) : M Session unit :=
  match exc with
  | WebSocketDisconnect => ret tt
  | _ =>
      if is_Exception exc
      then websocket_close w 4001 (Some (exc_str w exc))
      else raise exc
  end.

Definition ws_annotations (w : WsEnv) (chunk_id : Z) : M Session unit :=
  websocket_accept w ;;;
  s <- get ;;
  if negb (dict_mem chunk_id (CHUNKS (store s))) then
    websocket_close w 4000 None
  else
    chunk <- lift (subscript (CHUNKS (store s)) chunk_id) ;;
    try_except (ws_try w chunk_id chunk) (ws_except w).

(** One whole session against a store. *)
Definition run_session (w : WsEnv) (chunk_id : Z) (st : Store)
  : Session * result unit :=
  ws_annotations w chunk_id {| store := st; trace := [] |}.

(** How many times the model capability was called. *)
Definition model_calls (t : list event) : nat :=
  length (filter (fun e => match e with EvModelCall _ => true | _ => false end) t).

(** Whether a result payload was sent. *)
Definition payloads (t : list event) : list str :=
  flat_map (fun e => match e with EvSendText d => [d] | _ => [] end) t.

(* ------------------------------------------------------------------ *)
(** * Vocabulary of the statements *)
(* ------------------------------------------------------------------ *)

(** A string is trimmed when neither end is whitespace. *)
Definition trimmed (s : str) : Prop :=
  match s with [] => True | c :: _ => is_space c = false end /\
  match rev s with [] => True | c :: _ => is_space c = false end.

(** [parts] occur in [s] one after the other, without overlap. *)
Fixpoint in_order (parts : list str) (s : str) : Prop :=
  match parts with
  | [] => True
  | p :: ps => exists a b, s = a ++ p ++ b /\ in_order ps b
  end.

Definition BEGIN_MARKER : str := py "BEGIN SECTION TO EXPLICATE".
Definition END_MARKER : str := py "END SECTION TO EXPLICATE".

(** No line of the text is made of spaces and tabs only. *)
Definition no_blank_line (s : str) : bool :=
  forallb (fun l => negb (Textwrap.whitespace_only l)) (Textwrap.split_nl s).

(** [first, first + 1, ...], [n] of them. *)
Fixpoint Zseq (first : Z) (n : nat) : list Z :=
  match n with
  | O => []
  | S n' => first :: Zseq (first + 1) n'
  end.

(** The book record ingestion creates, with the chunk ids [cs]. *)
Definition book_of (u : str) (cs : list Z) : Book :=
  {| url := u; title := basename u; chunks := cs |}.

(** The chunk records ingestion creates for [texts], ids from [first]. *)
Fixpoint new_chunks (bid first : Z) (texts : list str) : dict Chunk :=
  match texts with
  | [] => []
  | t :: rest =>
      (first, {| book_id := bid; text := t; annotation := [] |})
      :: new_chunks bid (first + 1) rest
  end.

(** The text stored under an optional chunk id, empty when there is none. *)
Definition text_of (st : Store) (o : option Z) : str :=
  match o with
  | Some cid =>
      match dict_get cid (CHUNKS st) with
      | Some ch => text ch
      | None => []
      end
  | None => []
  end.

(** The splitter hands back no empty chunk (LangChain drops them). *)
Definition splitter_nonempty (env : IngestEnv) : Prop :=
  forall t m o texts,
    split_text env t m o = Ok texts -> Forall (fun c => c <> []) texts.

(** The store once [texts] have been stored as a new book fetched from [u]. *)
Definition after_ingest (st : Store) (u : str) (texts : list str) : Store :=
  {| _book_id_counter := _book_id_counter st + 1;
     _chunk_id_counter := _chunk_id_counter st + Z.of_nat (length texts);
     BOOKS := BOOKS st ++
              [(_book_id_counter st,
                book_of u (Zseq (_chunk_id_counter st) (length texts)))];
     CHUNKS := CHUNKS st ++
               new_chunks (_book_id_counter st) (_chunk_id_counter st) texts |}.

(** The keys of both maps run from 1 in insertion order and each counter
    stands right after the last key. *)
Definition counters_ok (st : Store) : Prop :=
  keys (BOOKS st) = Zseq 1 (length (BOOKS st)) /\
  _book_id_counter st = (1 + Z.of_nat (length (BOOKS st)))%Z /\
  keys (CHUNKS st) = Zseq 1 (length (CHUNKS st)) /\
  _chunk_id_counter st = (1 + Z.of_nat (length (CHUNKS st)))%Z.

(** Every chunk id a book lists is stored, once, with that book as owner. *)
Definition owned (st : Store) : Prop :=
  forall b bk, dict_get b (BOOKS st) = Some bk ->
    NoDup (chunks bk) /\
    forall c, In c (chunks bk) ->
      exists ch, dict_get c (CHUNKS st) = Some ch /\ book_id ch = b.

Definition texts_nonempty (st : Store) : Prop :=
  forall c ch, dict_get c (CHUNKS st) = Some ch -> text ch <> [].

Definition unannotated (st : Store) : Prop :=
  forall c ch, dict_get c (CHUNKS st) = Some ch -> annotation ch = [].

(** What every store built by ingestion alone satisfies. *)
Definition store_inv (st : Store) : Prop :=
  counters_ok st /\ owned st /\ unannotated st.

(** Requests served one after the other. *)
Inductive op :=
| OpIngest (env : IngestEnv) (u : str)
| OpSession (w : WsEnv) (chunk_id : Z).

Definition serve (o : op) (st : Store) : Store :=
  match o with
  | OpIngest env u => fst (ingest env u st)
  | OpSession w c => store (fst (run_session w c st))
  end.

Fixpoint serve_all (ops : list op) (st : Store) : Store :=
  match ops with
  | [] => st
  | o :: rest => serve_all rest (serve o st)
  end.

(* ------------------------------------------------------------------ *)
(** * A concrete world, for the examples *)
(* ------------------------------------------------------------------ *)

Module Sample.

Definition plain_text (t : str) : Response :=
  {| status_code := 200;
     content_type := Some (py "text/plain; charset=utf-8");
     body := t |}.

(** A server that answers with a three-paragraph text and a splitter that
    cuts it at the paragraph breaks. *)
Definition env : IngestEnv :=
  {| http_get := fun _ =>
       Ok (plain_text (py "One." ++ [nl; nl] ++ py "Two." ++ [nl; nl]
                          ++ py "Three."));
     split_text := fun _ _ _ => Ok [py "One."; py "Two."; py "Three."] |}.

(** The same server when the tokenizer cannot be loaded. *)
Definition env_no_tokenizer : IngestEnv :=
  {| http_get := http_get env;
     split_text := fun _ _ _ =>
       Raise (RuntimeError (py "tokenizer unavailable")) |}.

Definition book_url : str := py "https://www.gutenberg.org/files/158/158-0.txt".

Definition one_book : Store := ingest_all [(env, book_url)] initial_store.

(** [int] on ASCII text: surrounding whitespace, an optional sign, then
    decimal digits with single underscores between them.  (Python also
    takes the decimal digits of other scripts; the examples use none.) *)
Fixpoint digits (acc : Z) (after_digit : bool) (s : str) : option Z :=
  match s with
  | [] => if after_digit then Some acc else None
  | c :: s' =>
      if (48 <=? c)%N && (c <=? 57)%N
      then digits (10 * acc + Z.of_N (c - 48)) true s'
      else if (c =? 95)%N && after_digit then digits acc false s'
      else None
  end.

Definition int_ascii (s : str) : option Z :=
  match strip s with
  | [] => None
  | c :: r =>
      if (c =? 45)%N then option_map Z.opp (digits 0 false r)
      else if (c =? 43)%N then digits 0 false r
      else digits 0 false (c :: r)
  end.

(** [str(exc)] for the exceptions of the examples: the message the
    exception carries; for the ValueError of [int], Python's wording
    with the literal between quotes (its [repr], for a literal of plain
    letters and digits). *)
Definition message (e : exn) : str :=
  match e with
  | IntValueError s =>
      py "invalid literal for int() with base 10: '" ++ s ++ py "'"
  | ValueError m | AttributeError m | TransportError m | APITimeoutError m
  | APIConnectionError m | ValidationError m | RuntimeError m => m
  | _ => []
  end.

Definition note : Annotation :=
  {| summary := py "A count."; vocabs := [] |}.

(** A peer that stays connected and a model capability that answers
    [answer] whatever it is asked.  The payload is a stand-in: the
    summary alone takes the place of the JSON text of [annotation.json()]. *)
Definition ws (qs : list (str * str)) (answer : result ParsedResponse) : WsEnv :=
  {| query_params := qs;
     on_accept := None;
     on_close := fun _ _ => None;
     on_send_text := fun _ => None;
     responses_parse := fun _ => answer;
     int_of_str := int_ascii;
     exc_str := message;
     annotation_json := summary |}.

Definition answers : result ParsedResponse :=
  Ok {| output_parsed := Some note |}.

End Sample.

(** A computation of a session that leaves the store alone. *)
Definition keeps_store {A} (m : M Session A) : Prop :=
  forall s, store (fst (m s)) = store s.

(** Every model request of the trace leaves the output-token limit out. *)
Definition no_output_limit (t : list event) : Prop :=
  forall req, In (EvModelCall req) t -> max_output_tokens req = None.

(** A computation of a session that adds no model request with a limit. *)
Definition adds_no_limit {A} (m : M Session A) : Prop :=
  forall s, no_output_limit (trace s) -> no_output_limit (trace (fst (m s))).

(* ------------------------------------------------------------------ *)
(** * Chunk listing *)
(* ------------------------------------------------------------------ *)

(** The response model of [GET /chunks/{book_id}] (fields [id], [text]). *)
Record ChunkOut := { ChunkOut_id : Z; ChunkOut_text : str }.

(** A list comprehension whose element expression may raise: the first
    exception, left to right, ends it. *)
Fixpoint comprehension {A B} (f : A -> result B) (l : list A)
  : result (list B) :=
  match l with
  | [] => Ok []
  | x :: rest =>
      rbind (f x) (fun y =>
      rbind (comprehension f rest) (fun ys => Ok (y :: ys)))
  end.

Definition get_chunks (st : Store) (bid : Z) : result (list ChunkOut) :=
  if negb (dict_mem bid (BOOKS st)) then Ok []
  else
    rbind (subscript (BOOKS st) bid) (fun book =>
    comprehension
      (fun cid =>
         rbind (subscript (CHUNKS st) cid) (fun ch =>
         Ok {| ChunkOut_id := cid; ChunkOut_text := text ch |}))
      (chunks book)).

(* ------------------------------------------------------------------ *)
(** * Further vocabulary *)
(* ------------------------------------------------------------------ *)

(** The text with every line made of spaces and tabs only emptied. *)
Definition blank_lines (s : str) : str :=
  Textwrap.join_nl (map Textwrap.blank_out (Textwrap.split_nl s)).

(** Every stored chunk is listed by the book it names as its owner. *)
Definition listed (st : Store) : Prop :=
  forall c ch, dict_get c (CHUNKS st) = Some ch ->
    exists bk, dict_get (book_id ch) (BOOKS st) = Some bk /\ In c (chunks bk).

(** The chunk ids of every book are consecutive integers. *)
Definition consecutive (st : Store) : Prop :=
  forall b bk, dict_get b (BOOKS st) = Some bk ->
    exists first, chunks bk = Zseq first (length (chunks bk)).

(** The text stored under [c] when [c] is a chunk of book [b], else empty. *)
Definition text_in_book (st : Store) (b c : Z) : str :=
  match dict_get c (CHUNKS st) with
  | Some ch => if Z.eqb (book_id ch) b then text ch else []
  | None => []
  end.


(** The ingestion requests among the requests served. *)
Fixpoint ingests (ops : list op) : list (IngestEnv * str) :=
  match ops with
  | [] => []
  | OpIngest env u :: rest => (env, u) :: ingests rest
  | OpSession _ _ :: rest => ingests rest
  end.

(** What a session may do after the model call: nothing more, send the
    payload, or send it and close normally. *)
Inductive after_call : list event -> Prop :=
| after_call_nothing : after_call []
| after_call_sent (d : str) : after_call [EvSendText d]
| after_call_closed (d : str) :
    after_call [EvSendText d; EvClose 1000 None].

(** What the [except] clauses may add: nothing, or one close with 4001. *)
Inductive on_error : list event -> Prop :=
| on_error_silent : on_error []
| on_error_close (r : option str) : on_error [EvClose 4001 r].

(** The traces a session can leave. *)
Inductive session_shape : list event -> Prop :=
| shape_refused : session_shape [EvAccept]
| shape_rejected : session_shape [EvAccept; EvClose 4000 None]
| shape_failed_early (t2 : list event) :
    on_error t2 -> session_shape (EvAccept :: t2)
| shape_called (req : Request) (t1 t2 : list event) :
    after_call t1 -> on_error t2 ->
    session_shape (EvAccept :: EvModelCall req :: t1 ++ t2).

(** The rest of the [try] once the model has answered. *)
Definition deliver (w : WsEnv) (response : ParsedResponse) : M Session unit :=
  match output_parsed response with
  | None =>
      raise (AttributeError (py "'NoneType' object has no attribute 'json'"))
  | Some annotation =>
      websocket_send_text w (annotation_json w annotation) ;;;
      websocket_close w 1000 None
  end.

(* ------------------------------------------------------------------ *)
(** * The cleanup step, told with [find] and slices *)
(* ------------------------------------------------------------------ *)

(** Deleting every marker, leftmost first: a marker is the [opening]
    literal, one character at least, and what follows up to and
    including the nearest [closing] literal.  The text before and after
    a marker stays; an [opening] with no [closing] after it stays too.
    Every round drops a marker, so [length s] rounds are enough. *)
Fixpoint delete_markers (rounds : nat) (opening closing s : str) : str :=
  match rounds with
  | O => s
  | S rounds' =>
      match find opening s with
      | None => s
      | Some i =>
          let after := skipn (i + length opening + 1) s in
          match find closing after with
          | None => s
          | Some j =>
              firstn i s ++
              delete_markers rounds' opening closing
                (skipn (j + length closing) after)
          end
      end
  end.

Definition remove_start_markers (s : str) : str :=
  delete_markers (length s) HEADER_LIT STARS s.

(** Cutting the text at the first [ending] literal, when something
    follows that literal. *)
Definition cut_at (ending s : str) : str :=
  match find ending s with
  | None => s
  | Some i => if i + length ending <? length s then firstn i s else s
  end.

Definition cut_at_footer (s : str) : str := cut_at FOOTER_LIT s.
(* ------------------------------------------------------------------ *)
(** * Facts about strings and the matcher *)
(* ------------------------------------------------------------------ *)

Section StringFacts.

Lemma strip_prefix_app (l s : str) : strip_prefix l (l ++ s) = Some s.
Proof.
  induction l as [|x l IH]; simpl; [reflexivity|].
  now rewrite N.eqb_refl.
Qed.

Lemma strip_prefix_length (l s r : str) :
  strip_prefix l s = Some r -> length s = length l + length r.
Proof.
  revert s; induction l as [|x l IH]; intros s H; simpl in *.
  - now inversion H.
  - destruct s as [|y s]; [discriminate|].
    destruct (N.eqb x y); [|discriminate].
    simpl. now rewrite (IH _ H).
Qed.

Lemma startswith_app (l s : str) : startswith l (l ++ s) = true.
Proof. unfold startswith. now rewrite strip_prefix_app. Qed.

Lemma startswith_false_app (l x y : str) :
  startswith l x = false -> length l <= length x ->
  startswith l (x ++ y) = false.
Proof.
  unfold startswith.
  revert x; induction l as [|a l IH]; intros x H Hlen; simpl in *.
  - discriminate.
  - destruct x as [|b x]; simpl in *; [lia|].
    destruct (N.eqb a b); [|reflexivity].
    apply IH; [assumption|lia].
Qed.

Lemma find_cons (l : str) (c : char) (s : str) :
  find l (c :: s) =
  if startswith l (c :: s) then Some 0 else option_map S (find l s).
Proof. reflexivity. Qed.

Lemma find_none_startswith (l s : str) :
  find l s = None -> startswith l s = false.
Proof.
  destruct s as [|c s]; simpl; destruct (startswith l _); congruence.
Qed.

Lemma find_none_tail (l : str) (c : char) (s : str) :
  find l (c :: s) = None -> find l s = None.
Proof.
  rewrite find_cons. destruct (startswith l (c :: s)); [discriminate|].
  destruct (find l s); [discriminate|reflexivity].
Qed.

Lemma find_later (l : str) (c : char) (s : str) (n : nat) :
  find l (c :: s) = Some (S n) ->
  startswith l (c :: s) = false /\ find l s = Some n.
Proof.
  rewrite find_cons. destruct (startswith l (c :: s)); [discriminate|].
  destruct (find l s); simpl; intros H; inversion H; auto.
Qed.

Lemma lstrip_head (s : str) :
  match lstrip s with [] => True | c :: _ => is_space c = false end.
Proof.
  induction s as [|c s IH]; simpl; [exact I|].
  destruct (is_space c) eqn:E; [exact IH|exact E].
Qed.

Lemma lstrip_split (s : str) :
  exists l, s = l ++ lstrip s /\ forallb is_space l = true.
Proof.
  induction s as [|c s [l [E F]]]; simpl.
  - now exists [].
  - destruct (is_space c) eqn:Hc.
    + exists (c :: l). simpl. rewrite Hc, F. now rewrite <- E.
    + now exists [].
Qed.

End StringFacts.

Lemma strip_split (s : str) :
  exists l r, s = l ++ strip s ++ r /\
              forallb is_space l = true /\ forallb is_space r = true.
Proof.
  destruct (lstrip_split s) as [l [El Fl]].
  destruct (lstrip_split (rev (lstrip s))) as [r [Er Fr]].
  exists l, (rev r). unfold strip, rstrip. repeat split; trivial.
  - rewrite <- rev_app_distr, <- Er, rev_involutive. exact El.
  - rewrite forallb_forall in *. intros x Hx. apply Fr. now apply in_rev.
Qed.

Lemma strip_trimmed (s : str) : trimmed (strip s).
Proof.
  unfold trimmed, strip, rstrip. split.
  - destruct (lstrip_split (rev (lstrip s))) as [r [Er _]].
    pose proof (lstrip_head s) as Hh.
    assert (E : lstrip s = rev (lstrip (rev (lstrip s))) ++ rev r).
    { rewrite <- rev_app_distr, <- Er. now rewrite rev_involutive. }
    destruct (rev (lstrip (rev (lstrip s)))) as [|c t]; [exact I|].
    rewrite E in Hh. exact Hh.
  - rewrite rev_involutive. apply lstrip_head.
Qed.

Module ReFacts.
Import Re.

Lemma sub_scan_0 (r : regex) (repl s : str) :
  sub_scan r repl 0 s =
  match match_here r s Some with
  | Some rest =>
      repl ++
      match s with
      | [] => []
      | c :: s' =>
          match length s - length rest with
          | O => c :: sub_scan r repl 0 s'
          | S m => sub_scan r repl m s'
          end
      end
  | None =>
      match s with
      | [] => []
      | c :: s' => c :: sub_scan r repl 0 s'
      end
  end.
Proof. destruct s; reflexivity. Qed.

Lemma sub_scan_skip (r : regex) (repl x y : str) :
  sub_scan r repl (length x) (x ++ y) = sub_scan r repl 0 y.
Proof. induction x as [|c x IH]; simpl; [reflexivity|exact IH]. Qed.

(** A non-empty match at the head is replaced and the scan resumes after it. *)
Lemma sub_scan_match (r : regex) (repl x rest : str) :
  x <> [] ->
  match_here r (x ++ rest) Some = Some rest ->
  sub_scan r repl 0 (x ++ rest) = repl ++ sub_scan r repl 0 rest.
Proof.
  intros Hx Hm. rewrite sub_scan_0, Hm.
  destruct x as [|c x]; [congruence|]. f_equal.
  change ((c :: x) ++ rest) with (c :: x ++ rest).
  replace (length (c :: x ++ rest) - length rest) with (S (length x))
    by (simpl length; rewrite length_app; lia).
  apply sub_scan_skip.
Qed.

(** Where the leading literal of the pattern does not occur, nothing changes. *)
Lemma sub_scan_absent (l : str) (r' : regex) (repl s : str) :
  find l s = None -> sub_scan (Cat (Lit l) r') repl 0 s = s.
Proof.
  induction s as [|c s IH]; intros H; rewrite sub_scan_0; simpl.
  - apply find_none_startswith in H. unfold startswith in H.
    destruct (strip_prefix l []); [discriminate|reflexivity].
  - pose proof (find_none_startswith _ _ H) as Hs. unfold startswith in Hs.
    destruct (strip_prefix l (c :: s)); [discriminate|].
    f_equal. apply IH. eapply find_none_tail; eassumption.
Qed.

(** The text before the leftmost occurrence of the leading literal is kept. *)
Lemma sub_scan_before (l : str) (r' : regex) (repl pre y : str) :
  find l (pre ++ l) = Some (length pre) ->
  sub_scan (Cat (Lit l) r') repl 0 (pre ++ l ++ y) =
  pre ++ sub_scan (Cat (Lit l) r') repl 0 (l ++ y).
Proof.
  induction pre as [|c pre IH]; intros H; [reflexivity|].
  simpl app in *. simpl length in H.
  apply find_later in H. destruct H as [Hs Hf].
  rewrite sub_scan_0.
  assert (Hs' : startswith l (c :: pre ++ l ++ y) = false).
  { change (c :: pre ++ l ++ y) with ((c :: pre) ++ l ++ y).
    rewrite app_assoc. apply startswith_false_app; [exact Hs|].
    simpl. rewrite length_app. lia. }
  unfold startswith in Hs'. simpl match_here.
  destruct (strip_prefix l (c :: pre ++ l ++ y)); [discriminate|].
  f_equal. now apply IH.
Qed.

(** [.+?] followed by a literal stops at the first occurrence of the literal
    that leaves at least one character for the dot. *)
Lemma lazy_plus_first (l : str) (c : char) (mid rest : str) :
  find l (mid ++ l) = Some (length mid) ->
  lazy_plus (fun s => match strip_prefix l s with
                      | Some s' => Some s'
                      | None => None
                      end) (c :: mid ++ l ++ rest) = Some rest.
Proof.
  revert c; induction mid as [|a mid IH]; intros c H; simpl.
  - now rewrite strip_prefix_app.
  - simpl app in H. simpl length in H.
    apply find_later in H. destruct H as [Hs Hf].
    assert (Hs' : startswith l (a :: mid ++ l ++ rest) = false).
    { change (a :: mid ++ l ++ rest) with ((a :: mid) ++ l ++ rest).
      rewrite app_assoc. apply startswith_false_app; [exact Hs|].
      simpl. rewrite length_app. lia. }
    unfold startswith in Hs'.
    destruct (strip_prefix l (a :: mid ++ l ++ rest)) eqn:E; [discriminate|].
    exact (IH a Hf).
Qed.

(** [.+] under DOTALL swallows the whole remaining text. *)
Lemma greedy_plus_all (c : char) (s : str) :
  greedy_plus Some (c :: s) = Some [].
Proof.
  revert c; induction s as [|a s IH]; intros c; [reflexivity|].
  change (greedy_plus Some (c :: a :: s))
    with (match greedy_plus Some (a :: s) with
          | Some r => Some r
          | None => Some (a :: s)
          end).
  now rewrite IH.
Qed.

End ReFacts.

(* ------------------------------------------------------------------ *)
(** * The cleanup step *)
(* ------------------------------------------------------------------ *)

Section Cleanup.
Import Re ReFacts.

Variables l1 l2 : str.
Hypothesis l1_nonempty : l1 <> [].

Let header := Cat (Lit l1) (Cat AnyPlusLazy (Lit l2)).
Let footer := Cat (Lit l1) AnyPlusGreedy.

Lemma header_match (t0 : char) (mid rest : str) :
  find l2 (mid ++ l2) = Some (length mid) ->
  match_here header ((l1 ++ t0 :: mid ++ l2) ++ rest) Some = Some rest.
Proof.
  intros H. unfold header. simpl match_here.
  rewrite <- app_assoc, strip_prefix_app.
  simpl app. rewrite <- app_assoc.
  now apply lazy_plus_first.
Qed.

(** One marker: the text before it stays, the marker goes, the scan goes on. *)
Lemma header_sub_one (pre mid rest : str) (t0 : char) :
  find l1 (pre ++ l1) = Some (length pre) ->
  find l2 (mid ++ l2) = Some (length mid) ->
  sub header [] (pre ++ l1 ++ t0 :: mid ++ l2 ++ rest) =
  pre ++ sub header [] rest.
Proof.
  intros Hpre Hmid. unfold sub, header.
  rewrite sub_scan_before by exact Hpre. f_equal.
  replace (l1 ++ t0 :: mid ++ l2 ++ rest)
    with ((l1 ++ t0 :: mid ++ l2) ++ rest)
    by (rewrite <- app_assoc; simpl; now rewrite <- app_assoc).
  rewrite sub_scan_match; [reflexivity| |now apply header_match].
  destruct l1; [congruence|discriminate].
Qed.

Lemma footer_sub (keep rest : str) (c : char) :
  find l1 (keep ++ l1) = Some (length keep) ->
  sub footer [] (keep ++ l1 ++ c :: rest) = keep.
Proof.
  intros H. unfold sub, footer.
  rewrite sub_scan_before by exact H.
  rewrite <- (app_nil_r (l1 ++ c :: rest)).
  rewrite sub_scan_match.
  - rewrite sub_scan_absent; [simpl; now rewrite app_nil_r|].
    destruct l1; [congruence|reflexivity].
  - destruct l1; [congruence|discriminate].
  - simpl match_here. rewrite <- app_assoc, strip_prefix_app.
    simpl app. apply greedy_plus_all.
Qed.

End Cleanup.

Lemma HEADER_LIT_nonempty : HEADER_LIT <> [].
Proof. discriminate. Qed.

Lemma FOOTER_LIT_nonempty : FOOTER_LIT <> [].
Proof. discriminate. Qed.

(** The usual shape of a book.  On a text [pre ++ START-marker ++ body
    ++ END-marker-and-rest], where the START literal first occurs after
    [pre], the marker runs to the nearest following [***] (at least one
    character in between), [body] holds no further START literal and the
    END literal (followed by at least one character) first occurs after
    [body], the cleanup step returns [strip (pre ++ body)]. *)
Theorem clean_gutenberg_removes_markers_only
  (pre title_line main post : str) (t0 c : char) :
  find HEADER_LIT (pre ++ HEADER_LIT) = Some (length pre) ->
  find STARS (title_line ++ STARS) = Some (length title_line) ->
  find HEADER_LIT (main ++ FOOTER_LIT ++ c :: post) = None ->
  find FOOTER_LIT ((pre ++ main) ++ FOOTER_LIT) = Some (length (pre ++ main)) ->
  clean_gutenberg
    (pre ++ HEADER_LIT ++ t0 :: title_line ++ STARS
         ++ main ++ FOOTER_LIT ++ c :: post)
  = strip (pre ++ main)
  /\ trimmed (clean_gutenberg
                (pre ++ HEADER_LIT ++ t0 :: title_line ++ STARS
                     ++ main ++ FOOTER_LIT ++ c :: post)).
Proof.
  intros Hpre Htitle Hmain Hfoot.
  assert (E : clean_gutenberg
                (pre ++ HEADER_LIT ++ t0 :: title_line ++ STARS
                     ++ main ++ FOOTER_LIT ++ c :: post)
              = strip (pre ++ main)).
  { unfold clean_gutenberg, GUTEN_HEADER, GUTEN_FOOTER.
    rewrite header_sub_one by (assumption || exact HEADER_LIT_nonempty).
    unfold Re.sub at 2.
    rewrite ReFacts.sub_scan_absent by exact Hmain.
    rewrite app_assoc.
    now rewrite footer_sub by (assumption || exact FOOTER_LIT_nonempty). }
  split; [exact E|]. rewrite E. apply strip_trimmed.
Qed.

Lemma clean_gutenberg_removes_markers_only_witness :
  clean_gutenberg
    (py "Preface. " ++ HEADER_LIT ++ space :: py "EMMA " ++ STARS
        ++ py " Chapter I " ++ FOOTER_LIT ++ space :: py "EMMA ***")
  = strip (py "Preface. " ++ py " Chapter I ")
  /\ trimmed (clean_gutenberg
    (py "Preface. " ++ HEADER_LIT ++ space :: py "EMMA " ++ STARS
        ++ py " Chapter I " ++ FOOTER_LIT ++ space :: py "EMMA ***")).
Proof.
  apply (clean_gutenberg_removes_markers_only
           (py "Preface. ") (py "EMMA ") (py " Chapter I ") (py "EMMA ***")
           space space); vm_compute; reflexivity.
Defined.

(** C2 as the specification states it fails: the text before the START
    marker survives the cleanup. *)
Lemma clean_gutenberg_keeps_text_before_marker :
  clean_gutenberg
    (py "Preface. *** START OF THIS PROJECT GUTENBERG EBOOK EMMA *** Chapter I")
  = py "Preface.  Chapter I"
  /\ spec_cleanup
    (py "Preface. *** START OF THIS PROJECT GUTENBERG EBOOK EMMA *** Chapter I")
  = py "Chapter I"
  /\ clean_gutenberg
    (py "Preface. *** START OF THIS PROJECT GUTENBERG EBOOK EMMA *** Chapter I")
  <> spec_cleanup
    (py "Preface. *** START OF THIS PROJECT GUTENBERG EBOOK EMMA *** Chapter I").
Proof.
  repeat split; try (vm_compute; reflexivity).
  vm_compute. discriminate.
Qed.

(** The START marker is matched lazily, up to the nearest [***]. *)
Example clean_gutenberg_lazy_header :
  clean_gutenberg
    (py "*** START OF THIS PROJECT GUTENBERG EBOOK EMMA *** one *** two")
  = py "one *** two".
Proof. vm_compute. reflexivity. Qed.

Example clean_gutenberg_both_markers :
  clean_gutenberg
    (py "junk *** START OF THIS PROJECT GUTENBERG EBOOK EMMA *** Chapter I *** END OF THIS PROJECT GUTENBERG EBOOK EMMA *** licence")
  = py "junk  Chapter I".
Proof. vm_compute. reflexivity. Qed.

(* ------------------------------------------------------------------ *)
(** * Prompt framing *)
(* ------------------------------------------------------------------ *)

Module TextwrapFacts.
Import Textwrap.

Lemma split_nl_cons (s : str) : exists l ls, split_nl s = l :: ls.
Proof.
  induction s as [|c s [l [ls E]]]; simpl.
  - now exists [], [].
  - destruct (N.eqb c nl); [now exists [], (split_nl s)|].
    rewrite E. now exists (c :: l), ls.
Qed.

Lemma split_nl_app (x y : str) :
  split_nl (x ++ nl :: y) = split_nl x ++ split_nl y.
Proof.
  induction x as [|c x IH]; [reflexivity|].
  simpl. destruct (N.eqb c nl).
  - now rewrite IH.
  - rewrite IH. destruct (split_nl_cons x) as [l [ls E]]. now rewrite E.
Qed.

Lemma split_nl_nl (y : str) : split_nl (nl :: y) = [] :: split_nl y.
Proof. reflexivity. Qed.

Lemma join_split (s : str) : join_nl (split_nl s) = s.
Proof.
  induction s as [|c s IH]; [reflexivity|].
  simpl. destruct (N.eqb_spec c nl) as [->|Hc].
  - destruct (split_nl_cons s) as [l [ls E]]. rewrite E in *.
    simpl. simpl in IH. now rewrite IH.
  - destruct (split_nl_cons s) as [l [ls E]]. rewrite E in *.
    destruct ls as [|l' ls]; simpl in *; now rewrite <- IH.
Qed.

Lemma blank_out_id (ls : list str) :
  forallb (fun l => negb (whitespace_only l)) ls = true ->
  map blank_out ls = ls.
Proof.
  induction ls as [|l ls IH]; simpl; [reflexivity|].
  intros H. apply andb_true_iff in H. destruct H as [Hl Hls].
  unfold blank_out at 1. destruct (whitespace_only l); [discriminate|].
  now rewrite IH.
Qed.

Lemma common_prefix_nil (ins : list str) : fold_left common_prefix ins [] = [].
Proof. induction ins as [|i ins IH]; simpl; [reflexivity|exact IH]. Qed.

Lemma remove_margin_nil (ls : list str) : map (remove_margin []) ls = ls.
Proof. induction ls as [|l ls IH]; simpl; [reflexivity|now rewrite IH]. Qed.

(** A text whose first line starts at the margin and that has no line of
    blanks only comes back from [dedent] as it went in. *)
Lemma dedent_id (t first : str) (rest : list str) :
  split_nl t = first :: rest ->
  has_text first = true ->
  leading_ws first = [] ->
  no_blank_line t = true ->
  dedent t = t.
Proof.
  intros E Ht Hw Hb. unfold dedent, no_blank_line in *.
  rewrite (blank_out_id _ Hb), E.
  unfold indents. simpl filter. rewrite Ht. simpl map at 2.
  unfold margin_of. rewrite Hw, common_prefix_nil, remove_margin_nil.
  rewrite <- E. apply join_split.
Qed.

End TextwrapFacts.

Lemma in_order_In (parts : list str) (s p : str) (c : char) :
  in_order parts s -> In p parts -> In c p -> In c s.
Proof.
  revert s; induction parts as [|q ps IH]; intros s H Hp Hc; [contradiction|].
  destruct H as [a [b [-> Hb]]]. destruct Hp as [->|Hp].
  - apply in_or_app. right. apply in_or_app. now left.
  - apply in_or_app. right. apply in_or_app. right. now apply IH.
Qed.

Lemma framed_lines (P T N G : str) :
  Textwrap.split_nl (framed P T N G) =
  py "=== CONTEXT BEFORE ===" ::
  Textwrap.split_nl P ++ [] :: py "=== BEGIN SECTION TO EXPLICATE ===" ::
  Textwrap.split_nl T ++ py "=== END SECTION TO EXPLICATE ===" :: [] ::
  py "=== CONTEXT AFTER ===" ::
  Textwrap.split_nl N ++ [] :: py "=== TASK ===" ::
  Textwrap.split_nl G ++ [[]].
Proof.
  unfold framed.
  repeat (rewrite TextwrapFacts.split_nl_app
          || rewrite TextwrapFacts.split_nl_nl).
  reflexivity.
Qed.

Lemma framed_in_order (P T N G : str) :
  in_order [P; BEGIN_MARKER; T; END_MARKER; N; G] (framed P T N G).
Proof.
  unfold framed, in_order.
  exists (py "=== CONTEXT BEFORE ===" ++ [nl]). eexists.
  split; [rewrite <- app_assoc; reflexivity|].
  exists (nl :: nl :: py "=== "). eexists. split; [reflexivity|].
  exists (py " ===" ++ [nl]). eexists. split; [reflexivity|].
  exists (nl :: py "=== "). eexists. split; [reflexivity|].
  exists (py " ===" ++ nl :: nl :: py "=== CONTEXT AFTER ===" ++ [nl]).
  eexists. split; [reflexivity|].
  exists (nl :: nl :: py "=== TASK ===" ++ [nl]). exists [nl].
  split; [reflexivity|exact I].
Qed.

(** C3, as the code has it.  For texts P, T, N and a goal G none of
    which has a line made of spaces and tabs only, the user message is
    the framed text character for character; it therefore holds, in
    this order, P, the literal [BEGIN SECTION TO EXPLICATE], T, the
    literal [END SECTION TO EXPLICATE], N and G. *)
Theorem user_content_frames_verbatim (P T N G : str) :
  no_blank_line P = true -> no_blank_line T = true ->
  no_blank_line N = true -> no_blank_line G = true ->
  user_content P T N G = framed P T N G /\
  in_order [P; BEGIN_MARKER; T; END_MARKER; N; G] (user_content P T N G).
Proof.
  intros HP HT HN HG.
  assert (E : user_content P T N G = framed P T N G).
  { unfold user_content.
    eapply TextwrapFacts.dedent_id.
    - apply framed_lines.
    - reflexivity.
    - reflexivity.
    - unfold no_blank_line in *. rewrite framed_lines.
      simpl forallb.
      repeat (rewrite forallb_app; simpl forallb).
      rewrite HP, HT, HN, HG. reflexivity. }
  split; [exact E|]. rewrite E. apply framed_in_order.
Qed.

Lemma user_content_frames_verbatim_witness :
  user_content (py "P")
    (py "It was late." ++ [13%N; nl; 13%N; nl] ++ py "He slept.")
    (py "N") (py "G")
  = framed (py "P")
      (py "It was late." ++ [13%N; nl; 13%N; nl] ++ py "He slept.")
      (py "N") (py "G") /\
  in_order [py "P"; BEGIN_MARKER;
            py "It was late." ++ [13%N; nl; 13%N; nl] ++ py "He slept.";
            END_MARKER; py "N"; py "G"]
           (user_content (py "P")
              (py "It was late." ++ [13%N; nl; 13%N; nl] ++ py "He slept.")
              (py "N") (py "G")).
Proof.
  apply (user_content_frames_verbatim (py "P")
           (py "It was late." ++ [13%N; nl; 13%N; nl] ++ py "He slept.")
           (py "N") (py "G"));
    vm_compute; reflexivity.
Defined.

(** C3 as the specification states it fails: a chunk with a line that
    holds one tab reaches the model without that tab, so the message does
    not contain the chunk text. *)
Lemma user_content_drops_blank_line :
  ~ in_order
      [py "Before."; BEGIN_MARKER;
       py "It was late." ++ [nl; tab; nl] ++ py "He slept.";
       END_MARKER; py "After."; py "Explain."]
      (user_content (py "Before.")
         (py "It was late." ++ [nl; tab; nl] ++ py "He slept.")
         (py "After.") (py "Explain.")).
Proof.
  intros H.
  assert (Hin : In tab
            (user_content (py "Before.")
               (py "It was late." ++ [nl; tab; nl] ++ py "He slept.")
               (py "After.") (py "Explain."))).
  { eapply in_order_In; [exact H| |].
    - right; right; left; reflexivity.
    - apply in_or_app. right. right. left. reflexivity. }
  assert (Hex : existsb (N.eqb tab)
            (user_content (py "Before.")
               (py "It was late." ++ [nl; tab; nl] ++ py "He slept.")
               (py "After.") (py "Explain.")) = true).
  { apply existsb_exists. exists tab. split; [exact Hin|reflexivity]. }
  vm_compute in Hex. discriminate.
Qed.

Example user_content_blank_line_value :
  user_content (py "P") (py "a" ++ [nl; tab; nl] ++ py "b") (py "N") (py "G")
  = framed (py "P") (py "a" ++ [nl; nl] ++ py "b") (py "N") (py "G").
Proof. vm_compute. reflexivity. Qed.

(* ------------------------------------------------------------------ *)
(** * The store *)
(* ------------------------------------------------------------------ *)

Section DictFacts.
Context {V : Type}.

Lemma dict_get_in_keys (k : Z) (d : dict V) (v : V) :
  dict_get k d = Some v -> In k (keys d).
Proof.
  induction d as [|[k' v'] d IH]; simpl; [discriminate|].
  destruct (Z.eqb_spec k k') as [->|Hk]; [now left|].
  intros H. right. now apply IH.
Qed.

Lemma dict_get_fresh (k : Z) (d : dict V) :
  ~ In k (keys d) -> dict_get k d = None.
Proof.
  destruct (dict_get k d) eqn:E; [|reflexivity].
  intros H. elim H. eapply dict_get_in_keys; eassumption.
Qed.

Lemma dict_get_app (k : Z) (d1 d2 : dict V) :
  dict_get k (d1 ++ d2) =
  match dict_get k d1 with Some v => Some v | None => dict_get k d2 end.
Proof.
  induction d1 as [|[k' v'] d1 IH]; simpl; [reflexivity|].
  destruct (Z.eqb k k'); [reflexivity|exact IH].
Qed.

(** A new key goes last. *)
Lemma dict_set_fresh (k : Z) (v : V) (d : dict V) :
  ~ In k (keys d) -> dict_set k v d = d ++ [(k, v)].
Proof.
  induction d as [|[k' v'] d IH]; simpl; [reflexivity|].
  intros H. destruct (Z.eqb_spec k k') as [->|Hk].
  - elim H. now left.
  - f_equal. apply IH. intros Hin. apply H. now right.
Qed.

(** The last key, set again, keeps its place. *)
Lemma dict_set_last (k : Z) (v v' : V) (d : dict V) :
  ~ In k (keys d) -> dict_set k v' (d ++ [(k, v)]) = d ++ [(k, v')].
Proof.
  induction d as [|[k' w] d IH]; simpl.
  - now rewrite Z.eqb_refl.
  - intros H. destruct (Z.eqb_spec k k') as [->|Hk].
    + elim H. now left.
    + f_equal. apply IH. intros Hin. apply H. now right.
Qed.

Lemma dict_get_last (k : Z) (v : V) (d : dict V) :
  ~ In k (keys d) -> dict_get k (d ++ [(k, v)]) = Some v.
Proof.
  intros H. rewrite dict_get_app, dict_get_fresh by exact H. simpl.
  now rewrite Z.eqb_refl.
Qed.

Lemma keys_app (d1 d2 : dict V) : keys (d1 ++ d2) = keys d1 ++ keys d2.
Proof. apply map_app. Qed.

End DictFacts.

Section ZseqFacts.

Lemma Zseq_length (a : Z) (n : nat) : length (Zseq a n) = n.
Proof. revert a; induction n; intros a; simpl; [reflexivity|now rewrite IHn]. Qed.

Lemma Zseq_In (x a : Z) (n : nat) :
  In x (Zseq a n) <-> (a <= x < a + Z.of_nat n)%Z.
Proof.
  revert a; induction n as [|n IH]; intros a; simpl Zseq.
  - simpl. lia.
  - simpl In. rewrite IH. lia.
Qed.

Lemma Zseq_snoc (a : Z) (n : nat) :
  Zseq a (S n) = Zseq a n ++ [(a + Z.of_nat n)%Z].
Proof.
  revert a; induction n as [|n IH]; intros a.
  - simpl. now rewrite Z.add_0_r.
  - change (Zseq a (S (S n))) with (a :: Zseq (a + 1) (S n)).
    rewrite IH. simpl. do 3 f_equal. lia.
Qed.

Lemma Zseq_NoDup (a : Z) (n : nat) : NoDup (Zseq a n).
Proof.
  revert a; induction n as [|n IH]; intros a; simpl; constructor.
  - rewrite Zseq_In. lia.
  - apply IH.
Qed.

Lemma Zseq_nth (a : Z) (n k : nat) :
  k < n -> nth_error (Zseq a n) k = Some (a + Z.of_nat k)%Z.
Proof.
  revert a k; induction n as [|n IH]; intros a k H; [lia|].
  destruct k as [|k]; simpl.
  - now rewrite Z.add_0_r.
  - rewrite IH by lia. f_equal. lia.
Qed.

Lemma new_chunks_keys (bid a : Z) (texts : list str) :
  keys (new_chunks bid a texts) = Zseq a (length texts).
Proof.
  revert a; induction texts as [|t ts IH]; intros a; simpl;
    [reflexivity|]. f_equal. apply IH.
Qed.

Lemma new_chunks_get (bid a : Z) (texts : list str) (k : nat) (t : str) :
  nth_error texts k = Some t ->
  dict_get (a + Z.of_nat k) (new_chunks bid a texts)
  = Some {| book_id := bid; text := t; annotation := [] |}.
Proof.
  revert a k; induction texts as [|t0 ts IH]; intros a k H.
  - destruct k; discriminate.
  - destruct k as [|k]; simpl in *.
    + inversion H; subst. now rewrite Z.add_0_r, Z.eqb_refl.
    + destruct (Z.eqb_spec (a + Z.pos (Pos.of_succ_nat k)) a) as [E|_]; [lia|].
      replace (a + Z.pos (Pos.of_succ_nat k))%Z
        with ((a + 1) + Z.of_nat k)%Z by lia.
      now apply IH.
Qed.

End ZseqFacts.

Lemma keys_length {V} (d : dict V) : length (keys d) = length d.
Proof. apply length_map. Qed.

(** The loop of [ingest], run on a store whose newest book is [bid]. *)
Lemma store_chunks_shape (texts : list str) :
  forall (bc cc bid : Z) (u : str) (cs : list Z)
         (B : dict Book) (C : dict Chunk),
    ~ In bid (keys B) ->
    (forall k, In k (keys C) -> (k < cc)%Z) ->
    store_chunks bid texts
      {| _book_id_counter := bc; _chunk_id_counter := cc;
         BOOKS := B ++ [(bid, book_of u cs)]; CHUNKS := C |}
    = ({| _book_id_counter := bc;
          _chunk_id_counter := cc + Z.of_nat (length texts);
          BOOKS := B ++ [(bid, book_of u (cs ++ Zseq cc (length texts)))];
          CHUNKS := C ++ new_chunks bid cc texts |}, Ok tt).
Proof.
  induction texts as [|t ts IH]; intros bc cc bid u cs B C HB HC.
  - simpl. unfold ret. now rewrite Z.add_0_r, !app_nil_r.
  - simpl store_chunks. unfold bind at 1.
    assert (Hfresh : ~ In cc (keys C)).
    { intros Hin. apply HC in Hin. lia. }
    assert (E : store_chunk bid t
                  {| _book_id_counter := bc; _chunk_id_counter := cc;
                     BOOKS := B ++ [(bid, book_of u cs)]; CHUNKS := C |}
                = ({| _book_id_counter := bc; _chunk_id_counter := cc + 1;
                      BOOKS := B ++ [(bid, book_of u (cs ++ [cc]))];
                      CHUNKS := C ++ [(cc, {| book_id := bid; text := t;
                                              annotation := [] |})] |},
                   Ok tt)).
    { unfold store_chunk, bind, next_chunk_id, modify, get, lift,
        set_CHUNKS, set_BOOKS, subscript. simpl.
      rewrite dict_get_last by exact HB. simpl.
      rewrite dict_set_last by exact HB.
      rewrite dict_set_fresh by exact Hfresh.
      reflexivity. }
    rewrite E.
    rewrite IH.
    + f_equal. f_equal.
      * simpl length. lia.
      * simpl length. rewrite <- app_assoc. reflexivity.
      * rewrite <- app_assoc. reflexivity.
    + exact HB.
    + intros k Hk. rewrite keys_app in Hk. apply in_app_or in Hk.
      destruct Hk as [Hk|Hk].
      * apply HC in Hk. lia.
      * simpl in Hk. destruct Hk as [Hk|[]]. lia.
Qed.

Lemma Zseq_app (a : Z) (n m : nat) :
  Zseq a (n + m) = Zseq a n ++ Zseq (a + Z.of_nat n) m.
Proof.
  revert a; induction n as [|n IH]; intros a.
  - simpl. now rewrite Z.add_0_r.
  - change (Zseq a (S n + m)) with (a :: Zseq (a + 1) (n + m)).
    rewrite IH. simpl. do 3 f_equal. lia.
Qed.

Lemma counters_ok_fresh_book (st : Store) :
  counters_ok st -> ~ In (_book_id_counter st) (keys (BOOKS st)).
Proof.
  intros [Hk [Hc _]]. rewrite Hk, Hc, Zseq_In. lia.
Qed.

Lemma counters_ok_chunk_keys (st : Store) :
  counters_ok st ->
  forall k, In k (keys (CHUNKS st)) -> (k < _chunk_id_counter st)%Z.
Proof.
  intros [_ [_ [Hk Hc]]] k. rewrite Hk, Hc, Zseq_In. lia.
Qed.

(** What one ingestion request does to a store with sound counters, by
    the outcome of the fetch and of the splitter. *)
Lemma ingest_shape (env : IngestEnv) (u : str) (st : Store) :
  counters_ok st ->
  ingest env u st =
  match fetch_gutenberg_text env u with
  | Raise e => (st, Raise e)
  | Ok raw =>
      match split_paragraphs env (clean_gutenberg raw) 300 0 with
      | Raise e => (after_ingest st u [], Raise e)
      | Ok texts =>
          (after_ingest st u texts,
           Ok {| out_book_id := _book_id_counter st;
                 out_chunks := Zseq (_chunk_id_counter st) (length texts) |})
      end
  end.
Proof.
  intros Hok. pose proof (counters_ok_fresh_book Hok) as HB.
  pose proof (counters_ok_chunk_keys Hok) as HC.
  destruct st as [bc cc B C]. simpl in HB, HC.
  unfold ingest. unfold bind at 1. unfold lift at 1.
  destruct (fetch_gutenberg_text env u) as [raw|e]; [|reflexivity].
  unfold bind at 1. unfold next_book_id at 1. simpl.
  unfold bind at 1. unfold modify at 1, set_BOOKS. simpl.
  rewrite dict_set_fresh by exact HB.
  unfold bind at 1. unfold lift at 1.
  destruct (split_paragraphs env (clean_gutenberg raw) 300 0) as [texts|e].
  - unfold bind at 1.
    change {| url := u; title := basename u; chunks := [] |}
      with (book_of u []).
    rewrite store_chunks_shape by assumption.
    unfold bind, get, lift, subscript, ret. simpl.
    rewrite dict_get_last by exact HB. reflexivity.
  - unfold after_ingest. simpl. now rewrite Z.add_0_r, app_nil_r.
Qed.

Lemma counters_ok_initial : counters_ok initial_store.
Proof. repeat split. Qed.

Lemma new_chunks_length (bid a : Z) (texts : list str) :
  length (new_chunks bid a texts) = length texts.
Proof.
  revert a; induction texts as [|t ts IH]; intros a; simpl;
    [reflexivity|now rewrite IH].
Qed.

Lemma counters_ok_after (st : Store) (u : str) (texts : list str) :
  counters_ok st -> counters_ok (after_ingest st u texts).
Proof.
  intros [Hbk [Hbc [Hck Hcc]]]. unfold counters_ok, after_ingest.
  cbn [BOOKS CHUNKS _book_id_counter _chunk_id_counter].
  rewrite !keys_app, !length_app, new_chunks_keys, new_chunks_length.
  cbn [length keys map fst].
  rewrite Hbk, Hck, Hbc, Hcc, Nat.add_1_r, Zseq_snoc, Zseq_app.
  repeat split; lia.
Qed.

Lemma ingest_store_cases (env : IngestEnv) (u : str) (st : Store) :
  counters_ok st ->
  fst (ingest env u st) = st \/
  exists texts,
    fst (ingest env u st) = after_ingest st u texts /\
    (texts = [] \/
     exists raw, split_paragraphs env (clean_gutenberg raw) 300 0 = Ok texts).
Proof.
  intros Hok. rewrite (ingest_shape env u Hok).
  destruct (fetch_gutenberg_text env u) as [raw|e]; [|now left].
  right.
  destruct (split_paragraphs env (clean_gutenberg raw) 300 0) as [texts|e] eqn:E.
  - exists texts. split; [reflexivity|]. right. now exists raw.
  - exists []. split; [reflexivity|now left].
Qed.

Lemma counters_ok_ingest (env : IngestEnv) (u : str) (st : Store) :
  counters_ok st -> counters_ok (fst (ingest env u st)).
Proof.
  intros Hok.
  destruct (ingest_store_cases env u Hok) as [->|[texts [-> _]]];
    [exact Hok|now apply counters_ok_after].
Qed.

Lemma counters_ok_ingest_all (calls : list (IngestEnv * str)) (st : Store) :
  counters_ok st -> counters_ok (ingest_all calls st).
Proof.
  revert st; induction calls as [|[env u] calls IH]; intros st Hok;
    [exact Hok|].
  simpl. apply IH. now apply counters_ok_ingest.
Qed.

Lemma new_chunks_inv (bid a c : Z) (texts : list str) (ch : Chunk) :
  dict_get c (new_chunks bid a texts) = Some ch ->
  book_id ch = bid /\ In (text ch) texts /\ annotation ch = [].
Proof.
  revert a; induction texts as [|t ts IH]; intros a; simpl; [discriminate|].
  destruct (Z.eqb c a).
  - intros H. inversion H; subst. simpl. auto.
  - intros H. destruct (IH _ H) as [H1 [H2 H3]]. auto.
Qed.

Lemma owned_initial : owned initial_store.
Proof. intros b bk H. discriminate. Qed.

Lemma owned_after (st : Store) (u : str) (texts : list str) :
  counters_ok st -> owned st -> owned (after_ingest st u texts).
Proof.
  intros Hok Hown b bk. unfold after_ingest.
  cbn [BOOKS CHUNKS]. rewrite dict_get_app.
  destruct (dict_get b (BOOKS st)) as [bk0|] eqn:Eb.
  - intros H. inversion H; subst bk0. destruct (Hown _ _ Eb) as [Hnd Hin].
    split; [exact Hnd|]. intros c Hc. destruct (Hin _ Hc) as [ch [Hch Hb]].
    exists ch. rewrite dict_get_app, Hch. auto.
  - simpl. destruct (Z.eqb_spec b (_book_id_counter st)) as [->|_];
      [|discriminate].
    intros H. inversion H; subst bk. simpl. split; [apply Zseq_NoDup|].
    intros c Hc. pose proof Hc as Hr. rewrite Zseq_In in Hr.
    assert (Hfresh : dict_get c (CHUNKS st) = None).
    { apply dict_get_fresh. intros Hk.
      apply (counters_ok_chunk_keys Hok) in Hk. lia. }
    rewrite dict_get_app, Hfresh.
    set (k := Z.to_nat (c - _chunk_id_counter st)).
    assert (Hk : k < length texts) by (unfold k; lia).
    destruct (nth_error texts k) as [t|] eqn:Et;
      [|apply nth_error_None in Et; lia].
    replace c with (_chunk_id_counter st + Z.of_nat k)%Z by (unfold k; lia).
    rewrite (new_chunks_get _ _ _ _ Et). eexists. split; reflexivity.
Qed.

Lemma unannotated_after (st : Store) (u : str) (texts : list str) :
  unannotated st -> unannotated (after_ingest st u texts).
Proof.
  intros Hun c ch. unfold after_ingest. cbn [CHUNKS]. rewrite dict_get_app.
  destruct (dict_get c (CHUNKS st)) as [ch0|] eqn:E.
  - intros H. inversion H; subst. eapply Hun; eassumption.
  - intros H. now apply new_chunks_inv in H.
Qed.

Lemma texts_nonempty_after (st : Store) (u : str) (texts : list str) :
  Forall (fun c => c <> []) texts ->
  texts_nonempty st -> texts_nonempty (after_ingest st u texts).
Proof.
  intros Hne Hst c ch. unfold after_ingest. cbn [CHUNKS].
  rewrite dict_get_app.
  destruct (dict_get c (CHUNKS st)) as [ch0|] eqn:E.
  - intros H. inversion H; subst. eapply Hst; eassumption.
  - intros H. apply new_chunks_inv in H. destruct H as [_ [Hin _]].
    rewrite Forall_forall in Hne. now apply Hne.
Qed.

Lemma store_inv_ingest_all (calls : list (IngestEnv * str)) (st : Store) :
  store_inv st -> store_inv (ingest_all calls st).
Proof.
  revert st; induction calls as [|[env u] calls IH]; intros st Hinv;
    [exact Hinv|].
  simpl. apply IH. destruct Hinv as [Hok [Hown Hun]].
  destruct (ingest_store_cases env u Hok) as [->|[texts [-> _]]].
  - split; [assumption|split; assumption].
  - split; [now apply counters_ok_after|].
    split; [now apply owned_after|now apply unannotated_after].
Qed.

Lemma store_inv_reachable (calls : list (IngestEnv * str)) :
  store_inv (ingest_all calls initial_store).
Proof.
  apply store_inv_ingest_all.
  split; [exact counters_ok_initial|].
  split; [exact owned_initial|].
  intros c ch H. discriminate.
Qed.

Lemma texts_nonempty_ingest_all (calls : list (IngestEnv * str)) (st : Store) :
  Forall (fun call => splitter_nonempty (fst call)) calls ->
  counters_ok st -> texts_nonempty st ->
  texts_nonempty (ingest_all calls st).
Proof.
  revert st; induction calls as [|[env u] calls IH]; intros st Hsp Hok Hne;
    [exact Hne|].
  simpl. inversion Hsp as [|? ? Henv Hrest]; subst. simpl in Henv.
  apply IH; [exact Hrest|now apply counters_ok_ingest|].
  destruct (ingest_store_cases env u Hok) as [->|[texts [-> Ht]]];
    [exact Hne|].
  apply texts_nonempty_after; [|exact Hne].
  destruct Ht as [->|[raw Hraw]]; [constructor|].
  eapply Henv. exact Hraw.
Qed.

Lemma index_nth (l : list Z) (k : nat) (c : Z) :
  NoDup l -> nth_error l k = Some c -> index c l = Some k.
Proof.
  revert k; induction l as [|y l IH]; intros k Hnd H.
  - destruct k; discriminate.
  - inversion Hnd as [|? ? Hy Hl]; subst. destruct k as [|k]; simpl in *.
    + inversion H; subst. now rewrite Z.eqb_refl.
    + destruct (Z.eqb_spec y c) as [->|_].
      * elim Hy. eapply nth_error_In; eassumption.
      * now rewrite (IH _ Hl H).
Qed.

(* ------------------------------------------------------------------ *)
(** * Identifiers, ingestion and adjacency *)
(* ------------------------------------------------------------------ *)

(** C8.  Whatever requests came before and whatever the outside world
    answered, the keys of BOOKS and of CHUNKS, in insertion order, are
    1, 2, 3, ... and each counter stands right after the last key.  A
    further request whose fetch fails assigns no id.  One whose fetch
    succeeds assigns the next book id to a new book record, the old
    keys staying in place; when the splitter succeeds too, it assigns
    the next chunk ids, one per text and in the order of the texts, to
    new chunk records holding those texts, lists them in the book and
    returns them with the book id; each counter has moved by the number
    of ids it gave out. *)
Theorem identifiers_count_up_from_one
  (calls : list (IngestEnv * str)) (env : IngestEnv) (u : str) :
  let st := ingest_all calls initial_store in
  let nb := Z.of_nat (length (BOOKS st)) in
  let nc := Z.of_nat (length (CHUNKS st)) in
  keys (BOOKS st) = Zseq 1 (length (BOOKS st)) /\
  _book_id_counter st = (1 + nb)%Z /\
  keys (CHUNKS st) = Zseq 1 (length (CHUNKS st)) /\
  _chunk_id_counter st = (1 + nc)%Z /\
  match fetch_gutenberg_text env u with
  | Raise e => ingest env u st = (st, Raise e)
  | Ok raw =>
      match split_paragraphs env (clean_gutenberg raw) 300 0 with
      | Raise e =>
          exists st',
            ingest env u st = (st', Raise e) /\
            BOOKS st' = BOOKS st ++ [((1 + nb)%Z, book_of u [])] /\
            CHUNKS st' = CHUNKS st /\
            _book_id_counter st' = (2 + nb)%Z /\
            _chunk_id_counter st' = (1 + nc)%Z
      | Ok texts =>
          exists st',
            ingest env u st =
            (st', Ok {| out_book_id := (1 + nb)%Z;
                        out_chunks := Zseq (1 + nc) (length texts) |}) /\
            BOOKS st' =
            BOOKS st ++
            [((1 + nb)%Z, book_of u (Zseq (1 + nc) (length texts)))] /\
            CHUNKS st' =
            CHUNKS st ++ new_chunks (1 + nb) (1 + nc) texts /\
            keys (BOOKS st') = Zseq 1 (S (length (BOOKS st))) /\
            keys (CHUNKS st') =
            Zseq 1 (length (CHUNKS st) + length texts) /\
            _book_id_counter st' = (2 + nb)%Z /\
            _chunk_id_counter st' = (1 + nc + Z.of_nat (length texts))%Z
      end
  end.
Proof.
  intros st nb nc.
  pose proof (counters_ok_ingest_all calls counters_ok_initial) as Hok.
  fold st in Hok. pose proof Hok as [Hbk [Hbc [Hck Hcc]]].
  fold nb in Hbc. fold nc in Hcc.
  repeat (split; [assumption|]).
  rewrite (ingest_shape env u Hok).
  destruct (fetch_gutenberg_text env u) as [raw|e]; [|reflexivity].
  destruct (split_paragraphs env (clean_gutenberg raw) 300 0) as [texts|e].
  - exists (after_ingest st u texts).
    pose proof (counters_ok_after u texts Hok) as [Hbk' [_ [Hck' _]]].
    unfold after_ingest in *. cbn [BOOKS CHUNKS _book_id_counter
      _chunk_id_counter] in *.
    rewrite length_app in Hbk'. cbn [length] in Hbk'.
    rewrite Nat.add_1_r in Hbk'.
    rewrite length_app, new_chunks_length in Hck'.
    rewrite Hbc, Hcc in *.
    repeat (split; [first [reflexivity | assumption | lia]|]). lia.
  - exists (after_ingest st u []).
    unfold after_ingest. cbn [BOOKS CHUNKS _book_id_counter
      _chunk_id_counter length Zseq new_chunks].
    rewrite Hbc, Hcc, app_nil_r.
    repeat (split; [first [reflexivity | lia]|]). simpl. lia.
Qed.

Lemma identifiers_count_up_from_one_witness :
  exists st',
    ingest Sample.env Sample.book_url
      (ingest_all [(Sample.env, Sample.book_url)] initial_store) =
    (st', Ok {| out_book_id := 2; out_chunks := [4; 5; 6]%Z |}) /\
    keys (BOOKS st') = [1; 2]%Z /\
    keys (CHUNKS st') = [1; 2; 3; 4; 5; 6]%Z /\
    dict_get 5 (CHUNKS st')
    = Some {| book_id := 2; text := py "Two."; annotation := [] |} /\
    _book_id_counter st' = 3%Z /\ _chunk_id_counter st' = 7%Z.
Proof.
  destruct (identifiers_count_up_from_one
              [(Sample.env, Sample.book_url)] Sample.env Sample.book_url)
    as (_ & _ & _ & _ & st' & Hrun & _ & Hc & Hkb & Hkc & Hbc & Hcc).
  exists st'. split; [exact Hrun|]. split; [exact Hkb|].
  split; [exact Hkc|]. split; [rewrite Hc; reflexivity|].
  split; [exact Hbc|exact Hcc].
Defined.

(** C6, as the code has it.  When the fetch fails (transport fault,
    status outside 2xx, or a Content-Type without [text]) the request
    raises and the store, counters included, is what it was.  When the
    fetch and the splitter both succeed, one book is appended with the
    whole run of new chunk ids and every chunk text is stored under its
    id. *)
Theorem ingest_fetch_failure_or_full_book
  (calls : list (IngestEnv * str)) (env : IngestEnv) (u : str) :
  let st := ingest_all calls initial_store in
  match http_get env u with
  | Raise e => ingest env u st = (st, Raise e)
  | Ok r =>
      if negb ((200 <=? status_code r)%Z && (status_code r <=? 299)%Z)
      then ingest env u st = (st, Raise (HTTPStatusError (status_code r)))
      else if negb (contains (py "text")
                      match content_type r with Some v => v | None => [] end)
      then ingest env u st = (st, Raise (ValueError NOT_PLAIN_TEXT))
      else match split_paragraphs env (clean_gutenberg (body r)) 300 0 with
           | Ok texts =>
               ingest env u st =
               (after_ingest st u texts,
                Ok {| out_book_id := _book_id_counter st;
                      out_chunks := Zseq (_chunk_id_counter st)
                                         (length texts) |})
           | Raise _ => True
           end
  end.
Proof.
  intros st.
  pose proof (counters_ok_ingest_all calls counters_ok_initial) as Hok.
  fold st in Hok. rewrite (ingest_shape env u Hok).
  unfold fetch_gutenberg_text, raise_for_status.
  destruct (http_get env u) as [r|e]; [|reflexivity].
  destruct ((200 <=? status_code r)%Z && (status_code r <=? 299)%Z);
    [|reflexivity].
  simpl negb at 1. cbv iota.
  destruct (negb (contains (py "text")
              match content_type r with Some v => v | None => [] end));
    [reflexivity|].
  destruct (split_paragraphs env (clean_gutenberg (body r)) 300 0);
    [reflexivity|exact I].
Qed.

(** C6 as the specification states it fails: when the splitter raises,
    the request fails and the book record it created stays in the store. *)
Lemma ingest_splitter_failure_leaves_book :
  snd (ingest Sample.env_no_tokenizer Sample.book_url initial_store)
  = Raise (RuntimeError (py "tokenizer unavailable")) /\
  dict_get 1
    (BOOKS (fst (ingest Sample.env_no_tokenizer Sample.book_url
                   initial_store)))
  = Some (book_of Sample.book_url []) /\
  dict_get 1 (BOOKS initial_store) = None.
Proof. vm_compute. repeat split; reflexivity. Qed.

(** C4.  In a store built by ingestion, with a splitter that returns no
    empty chunk, the chunk at index [k] of a book gets back the text of
    the chunk at [k - 1] and the text of the chunk at [k + 1]; the first
    is empty exactly when [k] is 0, the second exactly when [k] is the
    last index. *)
Theorem adjacent_texts_are_neighbours
  (calls : list (IngestEnv * str)) (b : Z) (bk : Book) (k : nat) (c : Z) :
  Forall (fun call => splitter_nonempty (fst call)) calls ->
  dict_get b (BOOKS (ingest_all calls initial_store)) = Some bk ->
  nth_error (chunks bk) k = Some c ->
  let st := ingest_all calls initial_store in
  let prev_text :=
    match k with
    | O => []
    | S j => text_of st (nth_error (chunks bk) j)
    end in
  let next_text := text_of st (nth_error (chunks bk) (S k)) in
  get_adjacent_texts st c = Ok (prev_text, next_text) /\
  (prev_text = [] <-> k = 0) /\
  (next_text = [] <-> S k = length (chunks bk)).
Proof.
  intros Hsp Hb Hk st. fold st in Hb.
  destruct (store_inv_reachable calls) as [Hok [Hown _]].
  fold st in Hok, Hown.
  assert (Hne : texts_nonempty st).
  { apply texts_nonempty_ingest_all;
      [exact Hsp|exact counters_ok_initial|]. intros ? ? H. discriminate. }
  destruct (Hown _ _ Hb) as [Hnd Hin].
  assert (Hget : forall j cj, nth_error (chunks bk) j = Some cj ->
            exists ch, dict_get cj (CHUNKS st) = Some ch /\ book_id ch = b
                       /\ text ch <> []).
  { intros j cj Hj. destruct (Hin cj (nth_error_In _ _ Hj)) as [ch [H1 H2]].
    exists ch. repeat split; trivial. eapply Hne; eassumption. }
  assert (Hlen : k < length (chunks bk)).
  { apply nth_error_Some. congruence. }
  destruct (Hget _ _ Hk) as [ch [Hch [Hbid _]]].
  assert (Hprev :
    (if 0 <? k
     then rbind (item (chunks bk) (k - 1)) (fun c0 =>
          rbind (subscript (CHUNKS st) c0) (fun ch0 => Ok (text ch0)))
     else Ok [])
    = Ok (match k with
          | O => []
          | S j => text_of st (nth_error (chunks bk) j)
          end)).
  { destruct k as [|j]; [reflexivity|].
    replace (S j - 1) with j by lia. simpl Nat.ltb. cbv iota.
    destruct (nth_error (chunks bk) j) as [cj|] eqn:Ej;
      [|apply nth_error_None in Ej; lia].
    destruct (Hget _ _ Ej) as [chj [Hchj _]].
    unfold item, subscript, rbind, text_of. now rewrite Ej, Hchj. }
  assert (Hnext :
    (if k <? length (chunks bk) - 1
     then rbind (item (chunks bk) (k + 1)) (fun c0 =>
          rbind (subscript (CHUNKS st) c0) (fun ch0 => Ok (text ch0)))
     else Ok [])
    = Ok (text_of st (nth_error (chunks bk) (S k)))).
  { rewrite Nat.add_1_r.
    destruct (Nat.ltb_spec k (length (chunks bk) - 1)) as [Hlt|Hge].
    - destruct (nth_error (chunks bk) (S k)) as [cn|] eqn:En;
        [|apply nth_error_None in En; lia].
      destruct (Hget _ _ En) as [chn [Hchn _]].
      unfold item, subscript, rbind, text_of. now rewrite En, Hchn.
    - assert (En : nth_error (chunks bk) (S k) = None)
        by (apply nth_error_None; lia).
      now rewrite En. }
  split; [|split].
  - unfold get_adjacent_texts, subscript at 1 2. rewrite Hch. simpl rbind.
    rewrite Hbid, Hb. unfold rbind at 1.
    rewrite (@index_nth (chunks bk) k c Hnd Hk), Hprev, Hnext. reflexivity.
  - destruct k as [|j]; [tauto|]. split; [|discriminate].
    destruct (nth_error (chunks bk) j) as [cj|] eqn:Ej;
      [|apply nth_error_None in Ej; lia].
    destruct (Hget _ _ Ej) as [chj [Hchj [_ Hnz]]].
    unfold text_of. rewrite Hchj. intros E. contradiction.
  - destruct (nth_error (chunks bk) (S k)) as [cn|] eqn:En.
    + destruct (Hget _ _ En) as [chn [Hchn [_ Hnz]]].
      assert (S k < length (chunks bk)) by (apply nth_error_Some; congruence).
      unfold text_of. rewrite Hchn. split; [contradiction|lia].
    + apply nth_error_None in En. split; [lia|reflexivity].
Qed.

Lemma example_splitter_nonempty : splitter_nonempty Sample.env.
Proof.
  intros t m o texts H. inversion H; subst.
  repeat constructor; discriminate.
Qed.

Lemma adjacent_texts_are_neighbours_witness :
  get_adjacent_texts Sample.one_book 2 = Ok (py "One.", py "Three.") /\
  (py "One." = [] <-> 1 = 0) /\ (py "Three." = [] <-> 2 = 3).
Proof.
  apply (@adjacent_texts_are_neighbours
           [(Sample.env, Sample.book_url)] 1
           (book_of Sample.book_url [1; 2; 3]%Z) 1 2%Z).
  - constructor; [exact example_splitter_nonempty|constructor].
  - vm_compute. reflexivity.
  - reflexivity.
Defined.

Example adjacent_first :
  get_adjacent_texts Sample.one_book 1 = Ok ([], py "Two.").
Proof. vm_compute. reflexivity. Qed.

Example adjacent_last :
  get_adjacent_texts Sample.one_book 3 = Ok (py "Two.", []).
Proof. vm_compute. reflexivity. Qed.

(* ------------------------------------------------------------------ *)
(** * The annotation session *)
(* ------------------------------------------------------------------ *)

Section Frame.

Lemma keeps_ret {A} (a : A) : keeps_store (ret a).
Proof. intros s. reflexivity. Qed.

Lemma keeps_raise {A} (e : exn) : keeps_store (@raise Session A e).
Proof. intros s. reflexivity. Qed.

Lemma keeps_lift {A} (r : result A) : keeps_store (lift r).
Proof. intros s. reflexivity. Qed.

Lemma keeps_get : keeps_store (@get Session).
Proof. intros s. reflexivity. Qed.

Lemma keeps_emit (e : event) : keeps_store (emit e).
Proof. intros s. reflexivity. Qed.

Lemma keeps_bind {A B} (m : M Session A) (k : A -> M Session B) :
  keeps_store m -> (forall a, keeps_store (k a)) -> keeps_store (bind m k).
Proof.
  intros Hm Hk s. unfold bind. specialize (Hm s).
  destruct (m s) as [s' [a|e]]; simpl in *; [|exact Hm].
  now rewrite Hk.
Qed.

Lemma keeps_try_except {A} (m : M Session A) (h : exn -> M Session A) :
  keeps_store m -> (forall e, keeps_store (h e)) ->
  keeps_store (try_except m h).
Proof.
  intros Hm Hh s. unfold try_except. specialize (Hm s).
  destruct (m s) as [s' [a|e]]; simpl in *; [exact Hm|].
  now rewrite Hh.
Qed.

Lemma keeps_outcome (o : option exn) : keeps_store (outcome o).
Proof. destruct o; [apply keeps_raise|apply keeps_ret]. Qed.

Lemma keeps_close (w : WsEnv) (code : Z) (reason : option str) :
  keeps_store (websocket_close w code reason).
Proof.
  apply keeps_bind; [apply keeps_emit|intros _; apply keeps_outcome].
Qed.

Lemma keeps_ws_try (w : WsEnv) (c : Z) (chunk : Chunk) :
  keeps_store (ws_try w c chunk).
Proof.
  unfold ws_try. apply keeps_bind.
  { unfold int. destruct (int_of_str w _);
      [apply keeps_ret|apply keeps_raise]. }
  intros max_out. apply keeps_bind; [apply keeps_get|]. intros s.
  apply keeps_bind; [apply keeps_lift|]. intros [prev_text next_text].
  apply keeps_bind.
  { apply keeps_bind; [apply keeps_emit|intros _; apply keeps_lift]. }
  intros response. destruct (output_parsed response);
    [|apply keeps_raise].
  apply keeps_bind; [|intros _; apply keeps_close].
  apply keeps_bind; [apply keeps_emit|intros _; apply keeps_outcome].
Qed.

Lemma keeps_ws_except (w : WsEnv) (e : exn) : keeps_store (ws_except w e).
Proof.
  destruct e; simpl;
    first [apply keeps_ret | apply keeps_close | apply keeps_raise].
Qed.

Lemma keeps_ws_annotations (w : WsEnv) (c : Z) :
  keeps_store (ws_annotations w c).
Proof.
  unfold ws_annotations. apply keeps_bind.
  { apply keeps_bind; [apply keeps_emit|intros _; apply keeps_outcome]. }
  intros _. apply keeps_bind; [apply keeps_get|]. intros s.
  destruct (negb (dict_mem c (CHUNKS (store s)))); [apply keeps_close|].
  apply keeps_bind; [apply keeps_lift|]. intros chunk.
  apply keeps_try_except; [apply keeps_ws_try|apply keeps_ws_except].
Qed.

End Frame.

Lemma serve_all_app (ops1 ops2 : list op) (st : Store) :
  serve_all (ops1 ++ ops2) st = serve_all ops2 (serve_all ops1 st).
Proof.
  revert st; induction ops1 as [|o ops1 IH]; intros st; simpl;
    [reflexivity|apply IH].
Qed.

Lemma store_inv_serve (o : op) (st : Store) :
  store_inv st -> store_inv (serve o st).
Proof.
  intros Hinv. destruct o as [env u|w c]; simpl.
  - apply (store_inv_ingest_all [(env, u)] Hinv).
  - unfold run_session. now rewrite keeps_ws_annotations.
Qed.

Lemma store_inv_serve_all (ops : list op) (st : Store) :
  store_inv st -> store_inv (serve_all ops st).
Proof.
  revert st; induction ops as [|o ops IH]; intros st Hinv; simpl;
    [exact Hinv|]. apply IH. now apply store_inv_serve.
Qed.

(** C9.  A session hands the store back as it received it, whatever the
    peer and the model capability do: counters, BOOKS and CHUNKS are the
    same record before and after.  And in every store reached by serving
    ingestion requests and sessions in any order, every chunk's
    annotation slot still holds the empty string ingestion put there. *)
Theorem session_keeps_store (w : WsEnv) (chunk_id : Z) (st : Store)
  (ops : list op) :
  store (fst (run_session w chunk_id st)) = st /\
  BOOKS (store (fst (run_session w chunk_id st))) = BOOKS st /\
  CHUNKS (store (fst (run_session w chunk_id st))) = CHUNKS st /\
  unannotated (serve_all ops initial_store).
Proof.
  assert (E : store (fst (run_session w chunk_id st)) = st).
  { unfold run_session. now rewrite keeps_ws_annotations. }
  rewrite E. repeat split.
  apply (store_inv_serve_all ops).
  split; [exact counters_ok_initial|]. split; [exact owned_initial|].
  intros c ch H. discriminate.
Qed.

Section SessionRuns.

Variable w : WsEnv.
Variable chunk_id : Z.
Variable st : Store.

Let goal := qp_get (py "goal") DEFAULT_GOAL (query_params w).
Let max_tokens := qp_get (py "max_tokens") (py "256") (query_params w).

Lemma run_session_unknown :
  on_accept w = None ->
  dict_get chunk_id (CHUNKS st) = None ->
  run_session w chunk_id st =
  ({| store := st; trace := [EvAccept; EvClose 4000 None] |},
   match on_close w 4000 None with None => Ok tt | Some e => Raise e end).
Proof.
  intros Ha Hc.
  unfold run_session, ws_annotations, websocket_accept, websocket_close,
    bind, emit, modify, get, outcome, dict_mem. simpl.
  rewrite Ha. simpl. rewrite Hc. simpl.
  destruct (on_close w 4000 None); reflexivity.
Qed.

Lemma run_session_refused (e : exn) :
  on_accept w = Some e ->
  run_session w chunk_id st =
  ({| store := st; trace := [EvAccept] |}, Raise e).
Proof.
  intros Ha.
  unfold run_session, ws_annotations, websocket_accept, bind, emit, modify,
    outcome. simpl. now rewrite Ha.
Qed.

Lemma run_session_known (chunk : Chunk) :
  on_accept w = None ->
  dict_get chunk_id (CHUNKS st) = Some chunk ->
  run_session w chunk_id st =
  try_except (ws_try w chunk_id chunk) (ws_except w)
    {| store := st; trace := [EvAccept] |}.
Proof.
  intros Ha Hc.
  unfold run_session, ws_annotations, websocket_accept, bind, emit, modify,
    get, outcome, dict_mem, lift, subscript. simpl.
  rewrite Ha. simpl. rewrite Hc. reflexivity.
Qed.

Lemma ws_try_bad_int (chunk : Chunk) (s : Session) :
  int_of_str w max_tokens = None ->
  ws_try w chunk_id chunk s = (s, Raise (IntValueError max_tokens)).
Proof.
  intros Hi. unfold ws_try, bind, int. fold max_tokens. now rewrite Hi.
Qed.

Lemma ws_try_model_raises (chunk : Chunk) (s : Session) (m : Z)
  (p n : str) (e : exn) :
  int_of_str w max_tokens = Some m ->
  get_adjacent_texts (store s) chunk_id = Ok (p, n) ->
  responses_parse w
    (annotation_request (user_content p (text chunk) n goal)) = Raise e ->
  ws_try w chunk_id chunk s =
  ({| store := store s;
      trace := trace s ++
               [EvModelCall
                  (annotation_request (user_content p (text chunk) n goal))] |},
   Raise e).
Proof.
  intros Hi Ha Hr.
  unfold ws_try, bind, int, get, lift, client_responses_parse, emit, modify,
    ret. fold max_tokens goal. rewrite Hi. simpl. rewrite Ha. simpl.
  rewrite Hr. reflexivity.
Qed.

Lemma ws_except_reports (e : exn) (s : Session) :
  is_Exception e = true -> e <> WebSocketDisconnect ->
  ws_except w e s =
  websocket_close w 4001 (Some (exc_str w e)) s.
Proof.
  intros H1 H2. destruct e; try reflexivity; [congruence|discriminate].
Qed.

End SessionRuns.

(** C1.  On a connection for a chunk id that is not in CHUNKS the
    handler accepts, closes with code 4000 and returns: nothing else
    happens, so the model capability is called zero times and no payload
    is sent; the store is untouched. *)
Theorem unknown_chunk_is_rejected (w : WsEnv) (chunk_id : Z) (st : Store) :
  on_accept w = None ->
  dict_get chunk_id (CHUNKS st) = None ->
  run_session w chunk_id st =
  ({| store := st; trace := [EvAccept; EvClose 4000 None] |},
   match on_close w 4000 None with None => Ok tt | Some e => Raise e end)
  /\ model_calls (trace (fst (run_session w chunk_id st))) = 0
  /\ payloads (trace (fst (run_session w chunk_id st))) = [].
Proof.
  intros Ha Hc. rewrite (run_session_unknown w chunk_id st Ha Hc).
  repeat split.
Qed.

Lemma unknown_chunk_is_rejected_witness :
  run_session (Sample.ws [] Sample.answers) 7 Sample.one_book =
  ({| store := Sample.one_book; trace := [EvAccept; EvClose 4000 None] |},
   Ok tt)
  /\ model_calls (trace (fst (run_session (Sample.ws [] Sample.answers) 7
                                Sample.one_book))) = 0
  /\ payloads (trace (fst (run_session (Sample.ws [] Sample.answers) 7
                             Sample.one_book))) = [].
Proof.
  apply (@unknown_chunk_is_rejected (Sample.ws [] Sample.answers) 7
           Sample.one_book); reflexivity.
Defined.

(** C7.  When the call to the model capability raises an exception
    (any [Exception] other than a websocket disconnect: a timeout, a
    validation error on the structured output, a connection error, ...)
    the handler closes with code 4001 and [str(exc)] as reason; the
    model was called once, nothing was sent, the store is untouched. *)
Theorem model_failure_closes_with_reason
  (w : WsEnv) (chunk_id : Z) (st : Store) (chunk : Chunk) (m : Z)
  (p n : str) (e : exn) :
  on_accept w = None ->
  dict_get chunk_id (CHUNKS st) = Some chunk ->
  int_of_str w (qp_get (py "max_tokens") (py "256") (query_params w))
  = Some m ->
  get_adjacent_texts st chunk_id = Ok (p, n) ->
  responses_parse w
    (annotation_request
       (user_content p (text chunk) n
          (qp_get (py "goal") DEFAULT_GOAL (query_params w)))) = Raise e ->
  is_Exception e = true ->
  e <> WebSocketDisconnect ->
  run_session w chunk_id st =
  ({| store := st;
      trace := [EvAccept;
                EvModelCall
                  (annotation_request
                     (user_content p (text chunk) n
                        (qp_get (py "goal") DEFAULT_GOAL (query_params w))));
                EvClose 4001 (Some (exc_str w e))] |},
   match on_close w 4001 (Some (exc_str w e)) with
   | None => Ok tt
   | Some e' => Raise e'
   end)
  /\ model_calls (trace (fst (run_session w chunk_id st))) = 1
  /\ payloads (trace (fst (run_session w chunk_id st))) = [].
Proof.
  intros Ha Hc Hi Hadj Hr He1 He2.
  assert (E : run_session w chunk_id st =
    ({| store := st;
        trace := [EvAccept;
                  EvModelCall
                    (annotation_request
                       (user_content p (text chunk) n
                          (qp_get (py "goal") DEFAULT_GOAL (query_params w))));
                  EvClose 4001 (Some (exc_str w e))] |},
     match on_close w 4001 (Some (exc_str w e)) with
     | None => Ok tt
     | Some e' => Raise e'
     end)).
  { rewrite (run_session_known w chunk_id st Ha Hc). unfold try_except.
    rewrite (@ws_try_model_raises w chunk_id chunk
               {| store := st; trace := [EvAccept] |} m p n e Hi Hadj Hr).
    rewrite (ws_except_reports w _ He1 He2).
    unfold websocket_close, bind, emit, modify, outcome. simpl.
    destruct (on_close w 4001 (Some (exc_str w e))); reflexivity. }
  rewrite E. repeat split.
Qed.

Lemma model_failure_closes_with_reason_witness :
  fst (run_session
         (Sample.ws [] (Raise (APITimeoutError (py "Request timed out."))))
         2 Sample.one_book)
  = {| store := Sample.one_book;
       trace := [EvAccept;
                 EvModelCall
                   (annotation_request
                      (user_content (py "One.") (py "Two.") (py "Three.")
                         DEFAULT_GOAL));
                 EvClose 4001 (Some (py "Request timed out."))] |}.
Proof.
  pose proof (@model_failure_closes_with_reason
    (Sample.ws [] (Raise (APITimeoutError (py "Request timed out."))))
    2 Sample.one_book
    {| book_id := 1; text := py "Two."; annotation := [] |} 256
    (py "One.") (py "Three.") (APITimeoutError (py "Request timed out."))
    eq_refl eq_refl eq_refl eq_refl eq_refl eq_refl) as H.
  destruct H as [H _]; [discriminate|].
  rewrite H. reflexivity.
Defined.

(** C10.  On a connection for a stored chunk whose [max_tokens] value
    [int] rejects, the handler closes with code 4001 (the code of a model
    failure, not 4000) and the text of the ValueError as reason; the
    model capability is not called. *)
Theorem bad_max_tokens_closes_with_failure_code
  (w : WsEnv) (chunk_id : Z) (st : Store) (chunk : Chunk) (v : str) :
  on_accept w = None ->
  dict_get chunk_id (CHUNKS st) = Some chunk ->
  qp_get (py "max_tokens") (py "256") (query_params w) = v ->
  int_of_str w v = None ->
  run_session w chunk_id st =
  ({| store := st;
      trace := [EvAccept;
                EvClose 4001 (Some (exc_str w (IntValueError v)))] |},
   match on_close w 4001 (Some (exc_str w (IntValueError v))) with
   | None => Ok tt
   | Some e' => Raise e'
   end)
  /\ model_calls (trace (fst (run_session w chunk_id st))) = 0.
Proof.
  intros Ha Hc Hv Hi. subst v.
  assert (E : run_session w chunk_id st =
    ({| store := st;
        trace := [EvAccept;
                  EvClose 4001
                    (Some (exc_str w
                       (IntValueError
                          (qp_get (py "max_tokens") (py "256")
                             (query_params w)))))] |},
     match on_close w 4001
             (Some (exc_str w
                (IntValueError
                   (qp_get (py "max_tokens") (py "256") (query_params w)))))
     with
     | None => Ok tt
     | Some e' => Raise e'
     end)).
  { rewrite (run_session_known w chunk_id st Ha Hc). unfold try_except.
    rewrite (ws_try_bad_int w chunk_id chunk _ Hi).
    unfold ws_except, is_Exception, websocket_close, bind, emit, modify,
      outcome. simpl.
    destruct (on_close w 4001 _); reflexivity. }
  rewrite E. split; reflexivity.
Qed.

Lemma bad_max_tokens_closes_with_failure_code_witness :
  run_session (Sample.ws [(py "max_tokens", py "lots")] Sample.answers)
    1 Sample.one_book
  = ({| store := Sample.one_book;
        trace := [EvAccept;
                  EvClose 4001
                    (Some (py "invalid literal for int() with base 10: 'lots'"))] |},
     Ok tt)
  /\ model_calls
       (trace (fst (run_session
                      (Sample.ws [(py "max_tokens", py "lots")]
                         Sample.answers) 1 Sample.one_book))) = 0.
Proof.
  apply (@bad_max_tokens_closes_with_failure_code
           (Sample.ws [(py "max_tokens", py "lots")] Sample.answers)
           1 Sample.one_book
           {| book_id := 1; text := py "One."; annotation := [] |}
           (py "lots")); reflexivity.
Defined.

Section NoLimit.

Lemma no_limit_pure {A} (m : M Session A) :
  (forall s, fst (m s) = s) -> adds_no_limit m.
Proof. intros H s Hs. now rewrite H. Qed.

Lemma no_limit_emit (e : event) :
  (forall req, e = EvModelCall req -> max_output_tokens req = None) ->
  adds_no_limit (emit e).
Proof.
  intros He s Hs req Hin. simpl in Hin. apply in_app_or in Hin.
  destruct Hin as [Hin|[Hin|[]]]; [now apply Hs|now apply He].
Qed.

Lemma no_limit_bind {A B} (m : M Session A) (k : A -> M Session B) :
  adds_no_limit m -> (forall a, adds_no_limit (k a)) ->
  adds_no_limit (bind m k).
Proof.
  intros Hm Hk s Hs. unfold bind. specialize (Hm s Hs).
  destruct (m s) as [s' [a|e]]; simpl in *; [|exact Hm].
  now apply Hk.
Qed.

Lemma no_limit_try_except {A} (m : M Session A) (h : exn -> M Session A) :
  adds_no_limit m -> (forall e, adds_no_limit (h e)) ->
  adds_no_limit (try_except m h).
Proof.
  intros Hm Hh s Hs. unfold try_except. specialize (Hm s Hs).
  destruct (m s) as [s' [a|e]]; simpl in *; [exact Hm|].
  now apply Hh.
Qed.

Lemma no_limit_outcome (o : option exn) : adds_no_limit (outcome o).
Proof. apply no_limit_pure. intros s. now destruct o. Qed.

Lemma no_limit_close (w : WsEnv) (code : Z) (reason : option str) :
  adds_no_limit (websocket_close w code reason).
Proof.
  apply no_limit_bind; [|intros _; apply no_limit_outcome].
  apply no_limit_emit. discriminate.
Qed.

Lemma no_limit_ws_try (w : WsEnv) (c : Z) (chunk : Chunk) :
  adds_no_limit (ws_try w c chunk).
Proof.
  unfold ws_try. apply no_limit_bind.
  { apply no_limit_pure. intros s. unfold int.
    now destruct (int_of_str w _). }
  intros max_out. apply no_limit_bind; [now apply no_limit_pure|]. intros s.
  apply no_limit_bind; [now apply no_limit_pure|].
  intros [prev_text next_text].
  apply no_limit_bind.
  { apply no_limit_bind; [|intros _; now apply no_limit_pure].
    apply no_limit_emit. intros req H. inversion H. reflexivity. }
  intros response. destruct (output_parsed response);
    [|now apply no_limit_pure].
  apply no_limit_bind; [|intros _; apply no_limit_close].
  apply no_limit_bind; [|intros _; apply no_limit_outcome].
  apply no_limit_emit. discriminate.
Qed.

(** Whatever [max_tokens] says, no request to the model carries an
    output-token limit. *)
Lemma model_requests_carry_no_limit (w : WsEnv) (c : Z) (st : Store) :
  no_output_limit (trace (fst (run_session w c st))).
Proof.
  unfold run_session.
  assert (H : adds_no_limit (ws_annotations w c)).
  { unfold ws_annotations. apply no_limit_bind.
    { apply no_limit_bind; [|intros _; apply no_limit_outcome].
      apply no_limit_emit. discriminate. }
    intros _. apply no_limit_bind; [now apply no_limit_pure|]. intros s.
    destruct (negb (dict_mem c (CHUNKS (store s))));
      [apply no_limit_close|].
    apply no_limit_bind; [now apply no_limit_pure|]. intros chunk.
    apply no_limit_try_except; [apply no_limit_ws_try|].
    intros e. destruct e; simpl;
      first [now apply no_limit_pure | apply no_limit_close]. }
  apply H. intros req [].
Qed.

End NoLimit.

(** C5, the code against the claim.  A connection for chunk 1 with
    [max_tokens=10] is served to the end, and the one request made to the
    model carries no output-token limit; with [max_tokens=999], or with
    no [max_tokens] at all (so 256), the session is the same, event for
    event. *)
Theorem max_tokens_is_not_passed_on :
  fst (run_session
         (Sample.ws [(py "max_tokens", py "10")] Sample.answers)
         1 Sample.one_book)
  = {| store := Sample.one_book;
       trace := [EvAccept;
                 EvModelCall
                   {| model := py "gpt-4.1-nano-2025-04-14";
                      input :=
                        [ {| role := py "system"; content := SYSTEM_PROMPT |};
                          {| role := py "user";
                             content := framed [] (py "One.") (py "Two.")
                                          DEFAULT_GOAL |} ];
                      text_format := AnnotationFormat;
                      max_output_tokens := None |};
                 EvSendText (py "A count.");
                 EvClose 1000 None] |}
  /\ run_session
       (Sample.ws [(py "max_tokens", py "10")] Sample.answers)
       1 Sample.one_book
     = run_session
         (Sample.ws [(py "max_tokens", py "999")] Sample.answers)
         1 Sample.one_book
  /\ fst (run_session
            (Sample.ws [(py "max_tokens", py "10")] Sample.answers)
            1 Sample.one_book)
     = fst (run_session (Sample.ws [] Sample.answers) 1 Sample.one_book).
Proof. vm_compute. repeat split; reflexivity. Qed.

Example default_max_tokens_parses :
  Sample.int_ascii (qp_get (py "max_tokens") (py "256") []) = Some 256%Z.
Proof. reflexivity. Qed.

Example peer_gone_before_send :
  run_session
    {| query_params := [];
       on_accept := None;
       on_close := fun _ _ => None;
       on_send_text := fun _ => Some WebSocketDisconnect;
       responses_parse := fun _ => Sample.answers;
       int_of_str := Sample.int_ascii;
       exc_str := Sample.message;
       annotation_json := summary |} 3 Sample.one_book
  = ({| store := Sample.one_book;
        trace := [EvAccept;
                  EvModelCall
                    (annotation_request
                       (user_content (py "Two.") (py "Three.") []
                          DEFAULT_GOAL));
                  EvSendText (py "A count.")] |}, Ok tt).
Proof. vm_compute. reflexivity. Qed.

(* ------------------------------------------------------------------ *)
(** * More on the cleanup step *)
(* ------------------------------------------------------------------ *)

Lemma strip_prefix_eq (l s r : str) :
  strip_prefix l s = Some r -> s = l ++ r.
Proof.
  revert s; induction l as [|x l IH]; intros s H; simpl in *.
  - now inversion H.
  - destruct s as [|y s]; [discriminate|].
    destruct (N.eqb_spec x y) as [->|_]; [|discriminate].
    now rewrite (IH _ H).
Qed.


Lemma strip_length (s : str) : length (strip s) <= length s.
Proof.
  destruct (strip_split s) as [l [r [Es _]]].
  rewrite Es at 2. rewrite !length_app. lia.
Qed.

Lemma lstrip_all_space (s : str) : forallb is_space s = true -> lstrip s = [].
Proof.
  induction s as [|c s IH]; simpl; [reflexivity|].
  intros H. apply andb_true_iff in H. destruct H as [Hc Hs].
  rewrite Hc. now apply IH.
Qed.

Lemma find_absent_in_space (l : str) (x : char) (s : str) :
  is_space x = false -> forallb is_space s = true ->
  find (x :: l) s = None.
Proof.
  intros Hx. induction s as [|c s IH]; intros H; [reflexivity|].
  simpl in H. apply andb_true_iff in H. destruct H as [Hc Hs].
  rewrite find_cons. unfold startswith. simpl.
  destruct (N.eqb_spec x c) as [->|_]; [congruence|].
  now rewrite (IH Hs).
Qed.

Module SubFacts.
Import Re ReFacts.

(** Substituting the empty string never makes a text longer. *)
Lemma sub_scan_length (r : regex) (s : str) :
  forall k, length (sub_scan r [] k s) <= length s.
Proof.
  induction s as [|c s IH]; intros k.
  - destruct k; simpl; [|lia]. destruct (match_here r [] Some); simpl; lia.
  - destruct k as [|k].
    + rewrite sub_scan_0.
      destruct (match_here r (c :: s) Some) as [rest|].
      * remember (length (c :: s) - length rest) as n eqn:En. clear En.
        cbn [app]. destruct n as [|m].
        -- cbn [length]. specialize (IH 0). lia.
        -- specialize (IH m). cbn [length]. lia.
      * cbn [length]. specialize (IH 0). lia.
    + cbn [sub_scan length]. specialize (IH k). lia.
Qed.

Section Footer.

Variable l1 : str.
Hypothesis l1_nonempty : l1 <> [].

Let footer := Cat (Lit l1) AnyPlusGreedy.

Lemma footer_match_some (s rest : str) :
  match_here footer s Some = Some rest ->
  rest = [] /\ exists c t, s = l1 ++ c :: t.
Proof.
  unfold footer. simpl.
  destruct (strip_prefix l1 s) as [s'|] eqn:E; [|discriminate].
  apply strip_prefix_eq in E. subst s.
  destruct s' as [|c t]; [discriminate|].
  rewrite greedy_plus_all. intros H. inversion H. split; [reflexivity|].
  now exists c, t.
Qed.


Lemma footer_scan_nil : sub_scan footer [] 0 [] = [].
Proof.
  unfold footer. simpl. destruct l1; [congruence|reflexivity].
Qed.


Lemma footer_scan_step (x : char) (s : str) :
  match_here footer (x :: s) Some = None ->
  sub_scan footer [] 0 (x :: s) = x :: sub_scan footer [] 0 s.
Proof. intros H. rewrite sub_scan_0, H. reflexivity. Qed.



End Footer.

End SubFacts.

(** X1.  Whatever the raw text, the cleaned text neither starts nor ends
    with a whitespace character. *)
Theorem clean_gutenberg_is_trimmed (raw : str) :
  trimmed (clean_gutenberg raw).
Proof. unfold clean_gutenberg. apply strip_trimmed. Qed.

(** X2.  A text that holds neither the START literal nor the END literal
    is only trimmed. *)
Theorem clean_gutenberg_without_markers (raw : str) :
  find HEADER_LIT raw = None -> find FOOTER_LIT raw = None ->
  clean_gutenberg raw = strip raw.
Proof.
  intros Hh Hf. unfold clean_gutenberg, GUTEN_HEADER, GUTEN_FOOTER, Re.sub.
  rewrite (@ReFacts.sub_scan_absent HEADER_LIT
             (Re.Cat Re.AnyPlusLazy (Re.Lit STARS)) [] raw Hh).
  now rewrite (@ReFacts.sub_scan_absent FOOTER_LIT Re.AnyPlusGreedy [] raw Hf).
Qed.

Lemma clean_gutenberg_without_markers_witness :
  clean_gutenberg ([nl; space] ++ py "Call me Ishmael. *** " ++ [nl])
  = strip ([nl; space] ++ py "Call me Ishmael. *** " ++ [nl]).
Proof.
  apply (@clean_gutenberg_without_markers
           ([nl; space] ++ py "Call me Ishmael. *** " ++ [nl]));
    reflexivity.
Defined.



(** X4.  Cleaning only deletes: the cleaned text is never longer than
    the raw text. *)
Theorem clean_gutenberg_never_longer (raw : str) :
  length (clean_gutenberg raw) <= length raw.
Proof.
  unfold clean_gutenberg, Re.sub.
  pose proof (strip_length
    (Re.sub_scan GUTEN_FOOTER [] 0 (Re.sub_scan GUTEN_HEADER [] 0 raw))).
  pose proof (SubFacts.sub_scan_length GUTEN_FOOTER
    (Re.sub_scan GUTEN_HEADER [] 0 raw) 0).
  pose proof (SubFacts.sub_scan_length GUTEN_HEADER raw 0).
  lia.
Qed.

(** X5.  [GUTEN_HEADER.sub] removes every START marker, not the first
    one only: after a marker (the literal, at least one character, the
    nearest [***]) the substitution goes on in the rest of the text, and
    the text before the marker is kept. *)
Theorem header_sub_goes_on_after_marker
  (pre mid rest : str) (t0 : char) :
  find HEADER_LIT (pre ++ HEADER_LIT) = Some (length pre) ->
  find STARS (mid ++ STARS) = Some (length mid) ->
  Re.sub GUTEN_HEADER [] (pre ++ HEADER_LIT ++ t0 :: mid ++ STARS ++ rest)
  = pre ++ Re.sub GUTEN_HEADER [] rest.
Proof.
  intros Hpre Hmid. unfold GUTEN_HEADER.
  now apply header_sub_one; [exact HEADER_LIT_nonempty| |].
Qed.

Lemma header_sub_goes_on_after_marker_witness :
  Re.sub GUTEN_HEADER []
    (py "a" ++ HEADER_LIT ++ space :: py "ONE " ++ STARS
       ++ py "b*** START OF THIS PROJECT GUTENBERG EBOOK TWO ***c")
  = py "a" ++ py "bc".
Proof.
  rewrite (@header_sub_goes_on_after_marker (py "a") (py "ONE ")
             (py "b*** START OF THIS PROJECT GUTENBERG EBOOK TWO ***c")
             space eq_refl eq_refl).
  reflexivity.
Defined.

(** X6.  A raw text made of whitespace only (the empty text included) is
    cleaned to the empty text. *)
Theorem clean_gutenberg_of_whitespace (raw : str) :
  forallb is_space raw = true -> clean_gutenberg raw = [].
Proof.
  intros H. unfold clean_gutenberg, GUTEN_HEADER, GUTEN_FOOTER, Re.sub.
  assert (Hh : find HEADER_LIT raw = None)
    by (now apply find_absent_in_space).
  assert (Hf : find FOOTER_LIT raw = None)
    by (now apply find_absent_in_space).
  rewrite (@ReFacts.sub_scan_absent HEADER_LIT
             (Re.Cat Re.AnyPlusLazy (Re.Lit STARS)) [] raw Hh).
  rewrite (@ReFacts.sub_scan_absent FOOTER_LIT Re.AnyPlusGreedy [] raw Hf).
  unfold strip, rstrip. now rewrite (lstrip_all_space _ H).
Qed.

Lemma clean_gutenberg_of_whitespace_witness :
  clean_gutenberg [space; nl; tab; 160%N] = [].
Proof.
  apply (@clean_gutenberg_of_whitespace [space; nl; tab; 160%N]).
  reflexivity.
Defined.

(* ------------------------------------------------------------------ *)
(** * More on the prompt, the fetch and the title *)
(* ------------------------------------------------------------------ *)

Module JoinFacts.
Import Textwrap.

Lemma join_nl_cons (l : str) (ls : list str) :
  ls <> [] -> join_nl (l :: ls) = l ++ nl :: join_nl ls.
Proof. destruct ls; [congruence|reflexivity]. Qed.

Lemma join_nl_app (xs ys : list str) :
  xs <> [] -> ys <> [] ->
  join_nl (xs ++ ys) = join_nl xs ++ nl :: join_nl ys.
Proof.
  induction xs as [|x xs IH]; intros Hx Hy; [congruence|].
  destruct xs as [|x' xs].
  - simpl app. now rewrite join_nl_cons.
  - change ((x :: x' :: xs) ++ ys) with (x :: (x' :: xs) ++ ys).
    rewrite join_nl_cons by (simpl; discriminate).
    rewrite IH by (assumption || discriminate).
    rewrite (@join_nl_cons x (x' :: xs)) by discriminate.
    now rewrite <- app_assoc.
Qed.

Lemma join_nl_cons2 (a b : str) (r : list str) :
  join_nl (a :: b :: r) = a ++ nl :: join_nl (b :: r).
Proof. reflexivity. Qed.

Lemma join_nl_cons_app (a : str) (xs r : list str) :
  xs <> [] -> join_nl (a :: xs ++ r) = a ++ nl :: join_nl (xs ++ r).
Proof. intros H. apply join_nl_cons. destruct xs; [congruence|discriminate]. Qed.

Lemma join_nl_app_cons (xs : list str) (b : str) (r : list str) :
  xs <> [] -> join_nl (xs ++ b :: r) = join_nl xs ++ nl :: join_nl (b :: r).
Proof. intros H. apply join_nl_app; [exact H|discriminate]. Qed.

Lemma blanked_lines_cons (s : str) :
  map blank_out (split_nl s) <> [].
Proof.
  destruct (TextwrapFacts.split_nl_cons s) as [l [ls E]]. rewrite E.
  discriminate.
Qed.

End JoinFacts.

Lemma has_text_not_blank (l : str) :
  Textwrap.has_text l = true -> Textwrap.whitespace_only l = false.
Proof.
  unfold Textwrap.has_text, Textwrap.whitespace_only. intros H.
  destruct l as [|c l]; [reflexivity|].
  apply existsb_exists in H. destruct H as [x [Hin Hx]].
  destruct (forallb Textwrap.is_blank (c :: l)) eqn:E; [|reflexivity].
  rewrite forallb_forall in E. rewrite (E _ Hin) in Hx. discriminate.
Qed.

(** With a first line that starts at column 0, [dedent] finds an empty
    margin and only empties the blank lines. *)
Lemma dedent_flush (t first : str) (rest : list str) :
  Textwrap.split_nl t = first :: rest ->
  Textwrap.has_text first = true ->
  Textwrap.leading_ws first = [] ->
  Textwrap.dedent t =
  Textwrap.join_nl (map Textwrap.blank_out (Textwrap.split_nl t)).
Proof.
  intros E Ht Hw. unfold Textwrap.dedent. rewrite E.
  assert (Hb : map Textwrap.blank_out (first :: rest)
               = first :: map Textwrap.blank_out rest).
  { simpl. unfold Textwrap.blank_out at 1.
    now rewrite (has_text_not_blank _ Ht). }
  rewrite Hb.
  assert (Hm : Textwrap.margin_of
                 (Textwrap.indents (first :: map Textwrap.blank_out rest))
               = []).
  { unfold Textwrap.indents. simpl. rewrite Ht. simpl.
    rewrite Hw. apply TextwrapFacts.common_prefix_nil. }
  now rewrite Hm, TextwrapFacts.remove_margin_nil.
Qed.

Lemma framed_blanked_lines (P T N G : str) :
  map Textwrap.blank_out (Textwrap.split_nl (framed P T N G)) =
  py "=== CONTEXT BEFORE ===" ::
  map Textwrap.blank_out (Textwrap.split_nl P) ++
  [] :: py "=== BEGIN SECTION TO EXPLICATE ===" ::
  map Textwrap.blank_out (Textwrap.split_nl T) ++
  py "=== END SECTION TO EXPLICATE ===" :: [] ::
  py "=== CONTEXT AFTER ===" ::
  map Textwrap.blank_out (Textwrap.split_nl N) ++
  [] :: py "=== TASK ===" ::
  map Textwrap.blank_out (Textwrap.split_nl G) ++ [[]].
Proof.
  rewrite framed_lines.
  repeat (rewrite map_app || rewrite map_cons).
  reflexivity.
Qed.

(** X7.  For all texts and goals, blank lines or not, the user message
    is the frame around the four texts with their lines of spaces and
    tabs emptied: [textwrap.dedent] finds no common margin (the first
    line of the frame starts at column 0), so it strips no indentation
    from the chunk text and changes nothing else. *)
Theorem user_content_is_frame_of_blanked_texts (P T N G : str) :
  user_content P T N G =
  framed (blank_lines P) (blank_lines T) (blank_lines N) (blank_lines G).
Proof.
  unfold user_content.
  rewrite (@dedent_flush (framed P T N G) _ _ (framed_lines P T N G)
             eq_refl eq_refl).
  rewrite framed_blanked_lines.
  unfold framed, blank_lines.
  set (BP := map Textwrap.blank_out (Textwrap.split_nl P)).
  set (BT := map Textwrap.blank_out (Textwrap.split_nl T)).
  set (BN := map Textwrap.blank_out (Textwrap.split_nl N)).
  set (BG := map Textwrap.blank_out (Textwrap.split_nl G)).
  assert (HP : BP <> []) by apply JoinFacts.blanked_lines_cons.
  assert (HT : BT <> []) by apply JoinFacts.blanked_lines_cons.
  assert (HN : BN <> []) by apply JoinFacts.blanked_lines_cons.
  assert (HG : BG <> []) by apply JoinFacts.blanked_lines_cons.
  repeat first
    [ rewrite JoinFacts.join_nl_cons_app by assumption
    | rewrite JoinFacts.join_nl_app_cons by assumption
    | rewrite JoinFacts.join_nl_cons2 ].
  cbn [Textwrap.join_nl]. rewrite <- ?app_assoc. reflexivity.
Qed.

Lemma contains_iff (l s : str) :
  contains l s = true <-> exists a b, s = a ++ l ++ b.
Proof.
  unfold contains. split.
  - induction s as [|c s IH].
    + simpl. unfold startswith.
      destruct (strip_prefix l []) as [r|] eqn:E; [|discriminate].
      intros _. apply strip_prefix_eq in E. now exists [], r.
    + rewrite find_cons. unfold startswith.
      destruct (strip_prefix l (c :: s)) as [r|] eqn:E.
      * intros _. apply strip_prefix_eq in E. now exists [], r.
      * destruct (find l s); [|discriminate]. intros _.
        destruct (IH eq_refl) as [a [b ->]]. now exists (c :: a), b.
  - intros [a [b ->]]. induction a as [|c a IH].
    + simpl app. destruct (l ++ b) eqn:E.
      * simpl. rewrite <- E. now rewrite startswith_app.
      * rewrite find_cons, <- E. now rewrite startswith_app.
    + simpl app. rewrite find_cons.
      destruct (startswith l (c :: a ++ l ++ b)); [reflexivity|].
      destruct (find l (a ++ l ++ b)); [reflexivity|discriminate].
Qed.

(** X8.  The fetch returns a text exactly when the HTTP call returns,
    the status is 2xx and the Content-Type header is there and holds the
    (lower-case) letters [text] somewhere; the text is then the body as
    received.  So [text/html] passes, and a missing header or
    [TEXT/PLAIN] does not. *)
Theorem fetch_succeeds_exactly_when (env : IngestEnv) (u t : str) :
  fetch_gutenberg_text env u = Ok t <->
  exists r, http_get env u = Ok r /\
            (200 <= status_code r <= 299)%Z /\
            (exists a b, content_type r = Some (a ++ py "text" ++ b)) /\
            body r = t.
Proof.
  unfold fetch_gutenberg_text, raise_for_status. split.
  - destruct (http_get env u) as [r|e]; [|discriminate].
    destruct ((200 <=? status_code r)%Z && (status_code r <=? 299)%Z) eqn:Es;
      [|discriminate].
    destruct (contains (py "text")
                match content_type r with Some v => v | None => [] end) eqn:Ec;
      simpl; [|discriminate].
    intros H. inversion H; subst. exists r.
    apply andb_true_iff in Es. destruct Es as [E1 E2].
    apply Z.leb_le in E1. apply Z.leb_le in E2.
    repeat split; try assumption.
    apply contains_iff in Ec. destruct Ec as [a [b Ec]].
    destruct (content_type r) as [v|].
    + exists a, b. now rewrite Ec.
    + destruct a; discriminate.
  - intros [r [Hr [[H1 H2] [[a [b Hc]] Hb]]]]. rewrite Hr.
    apply Z.leb_le in H1. apply Z.leb_le in H2. rewrite H1, H2. simpl.
    rewrite Hc.
    assert (Ec : contains (py "text") (a ++ py "text" ++ b) = true)
      by (apply contains_iff; now exists a, b).
    rewrite Ec. simpl. now rewrite Hb.
Qed.

Lemma fetch_succeeds_exactly_when_witness :
  fetch_gutenberg_text
    {| http_get := fun _ =>
         Ok {| status_code := 200;
               content_type := Some (py "text/html");
               body := py "<html>" |};
       split_text := fun _ _ _ => Ok [] |}
    (py "https://example.org/") = Ok (py "<html>").
Proof.
  apply (proj2 (@fetch_succeeds_exactly_when _ (py "https://example.org/")
                  (py "<html>"))).
  eexists. split; [reflexivity|]. split; [simpl; lia|].
  split; [|reflexivity]. exists [], (py "/html"). reflexivity.
Defined.

Lemma until_slash_app (name rest : str) :
  forallb (fun c => negb (N.eqb c 47)) name = true ->
  until_slash (name ++ 47%N :: rest) = name.
Proof.
  induction name as [|c name IH]; simpl; [reflexivity|].
  intros H. apply andb_true_iff in H. destruct H as [Hc Hn].
  destruct (N.eqb c 47); [discriminate|]. now rewrite IH.
Qed.

Lemma basename_after_slash (d name : str) :
  forallb (fun c => negb (N.eqb c 47)) name = true ->
  basename (d ++ 47%N :: name) = name.
Proof.
  intros H. unfold basename.
  rewrite rev_app_distr. simpl rev. rewrite <- app_assoc. simpl app.
  rewrite until_slash_app; [apply rev_involutive|].
  rewrite forallb_forall in *. intros x Hx. apply H. now apply in_rev.
Qed.

Lemma serve_all_counters_ok (ops : list op) :
  counters_ok (serve_all ops initial_store).
Proof.
  apply (store_inv_serve_all ops).
  split; [exact counters_ok_initial|]. split; [exact owned_initial|].
  intros c ch H. discriminate.
Qed.

(** X9.  Once the fetch has succeeded, the book record stored under the
    next book id keeps the URL as given and takes as title what follows
    the last slash of the URL (nothing, for a URL that ends in a slash),
    whether or not the splitter then fails. *)
Theorem ingested_book_title
  (ops : list op) (env : IngestEnv) (d name raw : str) :
  forallb (fun c => negb (N.eqb c 47)) name = true ->
  fetch_gutenberg_text env (d ++ 47%N :: name) = Ok raw ->
  exists bk,
    dict_get (_book_id_counter (serve_all ops initial_store))
      (BOOKS (fst (ingest env (d ++ 47%N :: name)
                     (serve_all ops initial_store)))) = Some bk /\
    url bk = d ++ 47%N :: name /\ title bk = name.
Proof.
  intros Hn Hf.
  pose proof (serve_all_counters_ok ops) as Hok.
  rewrite (ingest_shape env _ Hok), Hf.
  pose proof (counters_ok_fresh_book Hok) as Hfresh.
  destruct (split_paragraphs env (clean_gutenberg raw) 300 0) as [texts|e];
    unfold after_ingest; cbn [fst BOOKS];
    rewrite dict_get_last by exact Hfresh;
    eexists; (split; [reflexivity|]); cbn [url title book_of];
    (split; [reflexivity|now apply basename_after_slash]).
Qed.

Lemma ingested_book_title_witness :
  exists bk,
    dict_get 1
      (BOOKS (fst (ingest Sample.env
                     (py "https://www.gutenberg.org/files/158" ++ 47%N
                        :: py "158-0.txt") initial_store))) = Some bk /\
    url bk = py "https://www.gutenberg.org/files/158" ++ 47%N
               :: py "158-0.txt" /\
    title bk = py "158-0.txt".
Proof.
  apply (@ingested_book_title [] Sample.env
           (py "https://www.gutenberg.org/files/158") (py "158-0.txt")
           (py "One." ++ [nl; nl] ++ py "Two." ++ [nl; nl] ++ py "Three."));
    reflexivity.
Defined.

(* ------------------------------------------------------------------ *)
(** * More on the store *)
(* ------------------------------------------------------------------ *)

Lemma serve_all_ingests (ops : list op) (st : Store) :
  serve_all ops st = ingest_all (ingests ops) st.
Proof.
  revert st; induction ops as [|[env u|w c] ops IH]; intros st; simpl;
    [reflexivity|apply IH|].
  rewrite <- IH. f_equal. unfold run_session. apply keeps_ws_annotations.
Qed.

Lemma listed_after (st : Store) (u : str) (texts : list str) :
  counters_ok st -> listed st -> listed (after_ingest st u texts).
Proof.
  intros Hok Hl c ch. unfold after_ingest. cbn [BOOKS CHUNKS].
  rewrite dict_get_app.
  destruct (dict_get c (CHUNKS st)) as [ch0|] eqn:E.
  - intros H. inversion H; subst ch0. destruct (Hl _ _ E) as [bk [Hb Hin]].
    exists bk. rewrite dict_get_app, Hb. auto.
  - intros H. pose proof (dict_get_in_keys _ _ H) as Hk.
    rewrite new_chunks_keys in Hk.
    apply new_chunks_inv in H. destruct H as [Hb _]. rewrite Hb.
    rewrite dict_get_last by (now apply counters_ok_fresh_book).
    eexists. split; [reflexivity|exact Hk].
Qed.

Lemma consecutive_after (st : Store) (u : str) (texts : list str) :
  consecutive st -> consecutive (after_ingest st u texts).
Proof.
  intros Hc b bk. unfold after_ingest. cbn [BOOKS]. rewrite dict_get_app.
  destruct (dict_get b (BOOKS st)) as [bk0|] eqn:E.
  - intros H. inversion H; subst. eapply Hc; eassumption.
  - simpl. destruct (Z.eqb b (_book_id_counter st)); [|discriminate].
    intros H. inversion H; subst. simpl.
    exists (_chunk_id_counter st). now rewrite Zseq_length.
Qed.

(** What every store reached by serving requests satisfies. *)
Lemma served_store (ops : list op) :
  let st := serve_all ops initial_store in
  counters_ok st /\ owned st /\ listed st /\ consecutive st.
Proof.
  intros st. unfold st. rewrite serve_all_ingests.
  generalize (ingests ops). intros calls.
  assert (H : forall s, counters_ok s /\ owned s /\ listed s /\ consecutive s ->
              counters_ok (ingest_all calls s) /\ owned (ingest_all calls s) /\
              listed (ingest_all calls s) /\ consecutive (ingest_all calls s)).
  { induction calls as [|[env u] calls IH]; intros s Hs; [exact Hs|].
    simpl. apply IH. destruct Hs as [Hok [Hown [Hl Hc]]].
    destruct (ingest_store_cases env u Hok) as [->|[texts [-> _]]].
    - repeat (split; [assumption|]). assumption.
    - split; [now apply counters_ok_after|].
      split; [now apply owned_after|].
      split; [now apply listed_after|now apply consecutive_after]. }
  apply H. split; [exact counters_ok_initial|].
  split; [exact owned_initial|].
  split; intros ? ? Hx; discriminate.
Qed.

Lemma comprehension_ok {A B} (f : A -> result B) (g : A -> B) (l : list A) :
  (forall x, In x l -> f x = Ok (g x)) ->
  comprehension f l = Ok (map g l).
Proof.
  induction l as [|x l IH]; intros H; [reflexivity|].
  simpl. rewrite (H x) by now left. simpl.
  rewrite IH by (intros y Hy; apply H; now right). reflexivity.
Qed.

(** X10.  In every store reached by serving requests the chunk listing
    never raises: for an unknown book id it is the empty list, and for a
    known one it is the book's chunk ids in order, each with the text
    stored under it. *)
Theorem get_chunks_lists_the_book (ops : list op) (b : Z) :
  let st := serve_all ops initial_store in
  get_chunks st b =
  match dict_get b (BOOKS st) with
  | None => Ok []
  | Some bk =>
      Ok (map (fun c => {| ChunkOut_id := c;
                           ChunkOut_text := text_of st (Some c) |})
              (chunks bk))
  end.
Proof.
  intros st. destruct (served_store ops) as [_ [Hown _]]. fold st in Hown.
  unfold get_chunks, dict_mem, subscript.
  destruct (dict_get b (BOOKS st)) as [bk|] eqn:Eb; [|reflexivity].
  simpl. apply comprehension_ok. intros c Hc.
  destruct (Hown _ _ Eb) as [_ Hin]. destruct (Hin _ Hc) as [ch [Hch _]].
  unfold text_of. now rewrite Hch.
Qed.




(** X12.  Ingestion only appends: whatever the outcome of a request,
    the BOOKS and CHUNKS of before are a prefix of those after, so every
    book and every chunk that could be looked up before is looked up
    unchanged after. *)
Theorem ingest_only_appends (ops : list op) (env : IngestEnv) (u : str) :
  let st := serve_all ops initial_store in
  let st' := fst (ingest env u st) in
  (exists newb newc, BOOKS st' = BOOKS st ++ newb /\
                     CHUNKS st' = CHUNKS st ++ newc) /\
  (forall b bk, dict_get b (BOOKS st) = Some bk ->
                dict_get b (BOOKS st') = Some bk) /\
  (forall c ch, dict_get c (CHUNKS st) = Some ch ->
                dict_get c (CHUNKS st') = Some ch).
Proof.
  intros st st'. pose proof (serve_all_counters_ok ops) as Hok.
  fold st in Hok.
  assert (H : exists newb newc, BOOKS st' = BOOKS st ++ newb /\
                                CHUNKS st' = CHUNKS st ++ newc).
  { unfold st'.
    destruct (ingest_store_cases env u Hok) as [->|[texts [-> _]]].
    - exists [], []. now rewrite !app_nil_r.
    - eexists. eexists. split; reflexivity. }
  split; [exact H|]. destruct H as [newb [newc [Hb Hc]]].
  split; intros k v Hk.
  - now rewrite Hb, dict_get_app, Hk.
  - now rewrite Hc, dict_get_app, Hk.
Qed.

Lemma ingest_only_appends_witness :
  dict_get 2
    (CHUNKS (fst (ingest Sample.env Sample.book_url
                    (serve_all [OpIngest Sample.env Sample.book_url]
                       initial_store))))
  = Some {| book_id := 1; text := py "Two."; annotation := [] |}.
Proof.
  apply (proj2 (proj2 (@ingest_only_appends
           [OpIngest Sample.env Sample.book_url] Sample.env
           Sample.book_url))).
  reflexivity.
Defined.

Section AdjacentFacts.

Variable st : Store.
Hypothesis Hown : owned st.

(** The context of the chunk at index [k] of a book, by index. *)
Lemma adjacent_by_index (b : Z) (bk : Book) (k : nat) (c : Z) :
  dict_get b (BOOKS st) = Some bk ->
  nth_error (chunks bk) k = Some c ->
  get_adjacent_texts st c =
  Ok (match k with
      | O => []
      | S j => text_of st (nth_error (chunks bk) j)
      end,
      text_of st (nth_error (chunks bk) (S k))).
Proof.
  intros Hb Hk. pose proof Hown as Ho. destruct (Ho _ _ Hb) as [Hnd Hin].
  assert (Hget : forall j cj, nth_error (chunks bk) j = Some cj ->
            exists ch, dict_get cj (CHUNKS st) = Some ch /\ book_id ch = b).
  { intros j cj Hj. exact (Hin cj (nth_error_In _ _ Hj)). }
  assert (Hlen : k < length (chunks bk)) by (apply nth_error_Some; congruence).
  destruct (Hget _ _ Hk) as [ch [Hch Hbid]].
  unfold get_adjacent_texts, subscript at 1 2. rewrite Hch. simpl rbind.
  rewrite Hbid, Hb. unfold rbind at 1.
  rewrite (@index_nth (chunks bk) k c Hnd Hk).
  assert (Hprev :
    (if 0 <? k
     then rbind (item (chunks bk) (k - 1)) (fun c0 =>
          rbind (subscript (CHUNKS st) c0) (fun ch0 => Ok (text ch0)))
     else Ok [])
    = Ok (match k with
          | O => []
          | S j => text_of st (nth_error (chunks bk) j)
          end)).
  { destruct k as [|j]; [reflexivity|].
    replace (S j - 1) with j by lia. simpl Nat.ltb. cbv iota.
    destruct (nth_error (chunks bk) j) as [cj|] eqn:Ej;
      [|apply nth_error_None in Ej; lia].
    destruct (Hget _ _ Ej) as [chj [Hchj _]].
    unfold item, subscript, rbind, text_of. now rewrite Ej, Hchj. }
  assert (Hnext :
    (if k <? length (chunks bk) - 1
     then rbind (item (chunks bk) (k + 1)) (fun c0 =>
          rbind (subscript (CHUNKS st) c0) (fun ch0 => Ok (text ch0)))
     else Ok [])
    = Ok (text_of st (nth_error (chunks bk) (S k)))).
  { rewrite Nat.add_1_r.
    destruct (Nat.ltb_spec k (length (chunks bk) - 1)) as [Hlt|Hge].
    - destruct (nth_error (chunks bk) (S k)) as [cn|] eqn:En;
        [|apply nth_error_None in En; lia].
      destruct (Hget _ _ En) as [chn [Hchn _]].
      unfold item, subscript, rbind, text_of. now rewrite En, Hchn.
    - assert (En : nth_error (chunks bk) (S k) = None)
        by (apply nth_error_None; lia).
      now rewrite En. }
  now rewrite Hprev, Hnext.
Qed.

Lemma text_in_book_listed (b : Z) (bk : Book) (c : Z) :
  dict_get b (BOOKS st) = Some bk -> In c (chunks bk) ->
  text_in_book st b c = text_of st (Some c).
Proof.
  intros Hb Hc. pose proof Hown as Ho. destruct (Ho _ _ Hb) as [_ Hin].
  destruct (Hin _ Hc) as [ch [Hch Hbid]].
  unfold text_in_book, text_of. rewrite Hch, Hbid. now rewrite Z.eqb_refl.
Qed.

Hypothesis Hl : listed st.

Lemma text_in_book_unlisted (b : Z) (bk : Book) (c : Z) :
  dict_get b (BOOKS st) = Some bk -> ~ In c (chunks bk) ->
  text_in_book st b c = [].
Proof.
  intros Hb Hc. unfold text_in_book.
  destruct (dict_get c (CHUNKS st)) as [ch|] eqn:Ech; [|reflexivity].
  destruct (Z.eqb_spec (book_id ch) b) as [E|_]; [|reflexivity].
  pose proof Hl as Hl'. destruct (Hl' _ _ Ech) as [bk' [Hb' Hin]].
  rewrite E, Hb in Hb'.
  inversion Hb'; subst. contradiction.
Qed.

End AdjacentFacts.

(** X13.  In every store reached by serving requests the context
    assembler answers for every stored chunk and raises KeyError, with
    the id asked for, for every other id: no stored chunk points to a
    missing book or is missing from its book's list. *)
Theorem adjacent_texts_answers_stored_chunks (ops : list op) (c : Z) :
  let st := serve_all ops initial_store in
  match dict_get c (CHUNKS st) with
  | None => get_adjacent_texts st c = Raise (KeyError c)
  | Some _ => exists p n, get_adjacent_texts st c = Ok (p, n)
  end.
Proof.
  intros st. destruct (served_store ops) as [_ [Hown [Hl _]]].
  fold st in Hown, Hl.
  destruct (dict_get c (CHUNKS st)) as [ch|] eqn:Ec.
  - destruct (Hl _ _ Ec) as [bk [Hb Hin]].
    apply In_nth_error in Hin. destruct Hin as [k Hk].
    rewrite (@adjacent_by_index st Hown (book_id ch) bk k c Hb Hk).
    eexists. eexists. reflexivity.
  - unfold get_adjacent_texts, subscript. now rewrite Ec.
Qed.

(** X14.  In every store reached by serving requests a stored chunk
    belongs to exactly one book: the book it names exists and lists the
    chunk, once, and no other book lists it. *)
Theorem chunk_has_one_owner (ops : list op) (c : Z) (ch : Chunk) :
  dict_get c (CHUNKS (serve_all ops initial_store)) = Some ch ->
  exists bk,
    dict_get (book_id ch) (BOOKS (serve_all ops initial_store)) = Some bk /\
    In c (chunks bk) /\ NoDup (chunks bk) /\
    forall b' bk',
      dict_get b' (BOOKS (serve_all ops initial_store)) = Some bk' ->
      In c (chunks bk') -> b' = book_id ch.
Proof.
  intros Hc. destruct (served_store ops) as [_ [Hown [Hl _]]].
  destruct (Hl _ _ Hc) as [bk [Hb Hin]]. exists bk.
  destruct (Hown _ _ Hb) as [Hnd _].
  repeat split; trivial.
  intros b' bk' Hb' Hin'. destruct (Hown _ _ Hb') as [_ H].
  destruct (H _ Hin') as [ch' [Hch' Hbid]]. congruence.
Qed.

Lemma chunk_has_one_owner_witness :
  exists bk,
    dict_get 1 (BOOKS Sample.one_book) = Some bk /\
    In 2%Z (chunks bk) /\ NoDup (chunks bk) /\
    forall b' bk',
      dict_get b' (BOOKS Sample.one_book) = Some bk' ->
      In 2%Z (chunks bk') -> b' = 1%Z.
Proof.
  apply (@chunk_has_one_owner [OpIngest Sample.env Sample.book_url] 2
           {| book_id := 1; text := py "Two."; annotation := [] |}).
  reflexivity.
Defined.

(** X15.  In every store reached by serving requests the context of a
    stored chunk [c] is made of the chunks with ids [c - 1] and [c + 1]:
    the text of each when it belongs to the same book as [c], the empty
    string when it belongs to another book or does not exist. *)
Theorem adjacent_texts_by_id (ops : list op) (c : Z) (ch : Chunk) :
  dict_get c (CHUNKS (serve_all ops initial_store)) = Some ch ->
  get_adjacent_texts (serve_all ops initial_store) c =
  Ok (text_in_book (serve_all ops initial_store) (book_id ch) (c - 1),
      text_in_book (serve_all ops initial_store) (book_id ch) (c + 1)).
Proof.
  intros Hc. destruct (served_store ops) as [_ [Hown [Hl Hcons]]].
  set (st := serve_all ops initial_store) in *.
  destruct (Hl _ _ Hc) as [bk [Hb Hin]].
  destruct (Hcons _ _ Hb) as [lo Hseq].
  pose proof Hin as Hr. rewrite Hseq, Zseq_In in Hr.
  set (n := length (chunks bk)) in *.
  set (k := Z.to_nat (c - lo)).
  assert (Hk : nth_error (chunks bk) k = Some c).
  { rewrite Hseq, Zseq_nth by (unfold k; lia). f_equal. unfold k. lia. }
  rewrite (@adjacent_by_index st Hown (book_id ch) bk k c Hb Hk).
  f_equal. f_equal.
  - destruct k as [|j] eqn:Ek.
    + symmetry. apply (@text_in_book_unlisted st Hl (book_id ch) bk _ Hb).
      rewrite Hseq, Zseq_In. unfold k in Ek. lia.
    + assert (Hj : nth_error (chunks bk) j = Some (c - 1)%Z).
      { rewrite Hseq, Zseq_nth by (unfold k in Ek; lia). f_equal.
        unfold k in Ek. lia. }
      rewrite Hj. symmetry. apply (@text_in_book_listed st Hown (book_id ch) bk _ Hb).
      eapply nth_error_In; eassumption.
  - destruct (Nat.lt_ge_cases (S k) n) as [Hlt|Hge].
    + assert (Hj : nth_error (chunks bk) (S k) = Some (c + 1)%Z).
      { rewrite Hseq, Zseq_nth by exact Hlt. f_equal. unfold k. lia. }
      rewrite Hj. symmetry. apply (@text_in_book_listed st Hown (book_id ch) bk _ Hb).
      eapply nth_error_In; eassumption.
    + assert (Hj : nth_error (chunks bk) (S k) = None)
        by (apply nth_error_None; fold n; lia).
      rewrite Hj. symmetry. apply (@text_in_book_unlisted st Hl (book_id ch) bk _ Hb).
      rewrite Hseq, Zseq_In. fold n. unfold k in Hge. lia.
Qed.

Lemma adjacent_texts_by_id_witness :
  get_adjacent_texts
    (serve_all [OpIngest Sample.env Sample.book_url;
                OpIngest Sample.env Sample.book_url] initial_store) 3
  = Ok (py "Two.", []).
Proof.
  apply (@adjacent_texts_by_id
           [OpIngest Sample.env Sample.book_url;
            OpIngest Sample.env Sample.book_url] 3
           {| book_id := 1; text := py "Three."; annotation := [] |}).
  reflexivity.
Defined.

(* ------------------------------------------------------------------ *)
(** * More on the annotation session *)
(* ------------------------------------------------------------------ *)

Section SessionCases.

Variable w : WsEnv.
Variable chunk_id : Z.

Let goal := qp_get (py "goal") DEFAULT_GOAL (query_params w).
Let max_tokens := qp_get (py "max_tokens") (py "256") (query_params w).

Lemma ws_try_adjacent_raises (chunk : Chunk) (s : Session) (m : Z) (e : exn) :
  int_of_str w max_tokens = Some m ->
  get_adjacent_texts (store s) chunk_id = Raise e ->
  ws_try w chunk_id chunk s = (s, Raise e).
Proof.
  intros Hi Ha. unfold ws_try, bind, int, get, lift, ret.
  fold max_tokens. rewrite Hi. simpl. now rewrite Ha.
Qed.

Lemma ws_try_model_returns (chunk : Chunk) (s : Session) (m : Z)
  (p n : str) (response : ParsedResponse) :
  int_of_str w max_tokens = Some m ->
  get_adjacent_texts (store s) chunk_id = Ok (p, n) ->
  responses_parse w
    (annotation_request (user_content p (text chunk) n goal)) = Ok response ->
  ws_try w chunk_id chunk s =
  deliver w response
    {| store := store s;
       trace := trace s ++
                [EvModelCall
                   (annotation_request
                      (user_content p (text chunk) n goal))] |}.
Proof.
  intros Hi Ha Hr.
  unfold ws_try, deliver, bind, int, get, lift, client_responses_parse, emit,
    modify, ret. fold max_tokens goal. rewrite Hi. simpl. rewrite Ha. simpl.
  rewrite Hr. reflexivity.
Qed.

Lemma deliver_tail (response : ParsedResponse) (s : Session) :
  store (fst (deliver w response s)) = store s /\
  exists t1, after_call t1 /\
             trace (fst (deliver w response s)) = trace s ++ t1.
Proof.
  unfold deliver. destruct (output_parsed response) as [a|].
  - unfold websocket_send_text, websocket_close, bind, emit, modify, outcome.
    simpl. destruct (on_send_text w (annotation_json w a)); simpl.
    + split; [reflexivity|]. eexists. split; [apply after_call_sent|].
      reflexivity.
    + split; [now destruct (on_close w 1000 None)|].
      exists [EvSendText (annotation_json w a); EvClose 1000 None].
      split; [apply after_call_closed|].
      destruct (on_close w 1000 None); simpl; now rewrite <- app_assoc.
  - split; [reflexivity|]. exists []. split; [constructor|].
    simpl. now rewrite app_nil_r.
Qed.

Lemma ws_except_tail (e : exn) (s : Session) :
  store (fst (ws_except w e s)) = store s /\
  exists t2, on_error t2 /\ trace (fst (ws_except w e s)) = trace s ++ t2.
Proof.
  assert (Hclose : forall r,
    store (fst (websocket_close w 4001 r s)) = store s /\
    exists t2, on_error t2 /\
               trace (fst (websocket_close w 4001 r s)) = trace s ++ t2).
  { intros r. unfold websocket_close, bind, emit, modify, outcome. simpl.
    split; [now destruct (on_close w 4001 r)|].
    exists [EvClose 4001 r]. split; [constructor|].
    now destruct (on_close w 4001 r). }
  destruct e; cbn [ws_except is_Exception]; try apply Hclose;
    (split; [reflexivity|]; exists []; split; [constructor|];
     simpl; now rewrite app_nil_r).
Qed.

(** Every run of the [try] with its [except] clauses, from a session
    state [s]: either no model call was made, or one was, for the
    requested chunk between its neighbours. *)
Lemma guarded_try_cases (chunk : Chunk) (s : Session) :
  let r := try_except (ws_try w chunk_id chunk) (ws_except w) s in
  store (fst r) = store s /\
  ((exists t2, on_error t2 /\ trace (fst r) = trace s ++ t2) \/
   (exists p n t1 t2,
      get_adjacent_texts (store s) chunk_id = Ok (p, n) /\
      after_call t1 /\ on_error t2 /\
      trace (fst r) =
      trace s ++
      EvModelCall (annotation_request (user_content p (text chunk) n goal))
      :: t1 ++ t2)).
Proof.
  intros r. unfold r, try_except.
  destruct (int_of_str w max_tokens) as [m|] eqn:Hi.
  2:{ rewrite (ws_try_bad_int w chunk_id chunk s Hi).
      destruct (ws_except_tail (IntValueError max_tokens) s) as [Hs Ht].
      split; [exact Hs|]. left. exact Ht. }
  destruct (get_adjacent_texts (store s) chunk_id) as [[p n]|e] eqn:Ha.
  2:{ rewrite (@ws_try_adjacent_raises chunk s m e Hi Ha).
      destruct (ws_except_tail e s) as [Hs Ht].
      split; [exact Hs|]. left. exact Ht. }
  set (req := annotation_request (user_content p (text chunk) n goal)).
  set (s1 := {| store := store s; trace := trace s ++ [EvModelCall req] |}).
  destruct (responses_parse w req) as [response|e] eqn:Hr.
  - rewrite (@ws_try_model_returns chunk s m p n response Hi Ha Hr).
    fold req s1.
    destruct (deliver_tail response s1) as [Hs [t1 [Ht1 Et1]]].
    destruct (deliver w response s1) as [s2 [[]|e]] eqn:Ed; simpl in *.
    + split; [exact Hs|]. right. exists p, n, t1, [].
      repeat split; try assumption; try constructor.
      rewrite Et1, app_nil_r. simpl. now rewrite <- app_assoc.
    + destruct (ws_except_tail e s2) as [Hs2 [t2 [Ht2 Et2]]].
      split; [congruence|]. right. exists p, n, t1, t2.
      repeat split; try assumption.
      rewrite Et2, Et1. simpl. now rewrite <- !app_assoc.
  - rewrite (@ws_try_model_raises w chunk_id chunk s m p n e Hi Ha Hr).
    cbv beta iota. fold req s1.
    destruct (ws_except_tail e s1) as [Hs [t2 [Ht2 Et2]]].
    split; [exact Hs|]. right. exists p, n, [], t2.
    repeat split; try assumption; try constructor.
    transitivity (trace s1 ++ t2); [exact Et2|].
    simpl. now rewrite <- app_assoc.
Qed.

End SessionCases.

Lemma session_shape_counts (t : list event) :
  session_shape t ->
  length (payloads t) <= model_calls t /\ model_calls t <= 1.
Proof.
  intros H. unfold model_calls, payloads.
  destruct H as [| |t2 H2|req t1 t2 H1 H2].
  - simpl. lia.
  - simpl. lia.
  - destruct H2; simpl; lia.
  - destruct H1; destruct H2; simpl; lia.
Qed.

Lemma run_session_shape (w : WsEnv) (c : Z) (st : Store) :
  session_shape (trace (fst (run_session w c st))).
Proof.
  destruct (on_accept w) as [e|] eqn:Ha.
  { rewrite (run_session_refused w c st Ha). constructor. }
  destruct (dict_get c (CHUNKS st)) as [chunk|] eqn:Hc.
  2:{ rewrite (run_session_unknown w c st Ha Hc). constructor. }
  rewrite (run_session_known w c st Ha Hc).
  destruct (guarded_try_cases w c chunk {| store := st; trace := [EvAccept] |})
    as [_ [[t2 [H2 E]]|[p [n [t1 [t2 [_ [H1 [H2 E]]]]]]]]];
    rewrite E; simpl; now constructor.
Qed.

(** X16.  Whatever the peer, the model capability and the store do, a
    session leaves one of a few traces: the accept alone; accept and
    close(4000); accept and at most a close(4001); or accept, one model
    call, then nothing, the payload, or the payload and a normal close,
    and after that at most one close(4001).  So the model is called at
    most once and a payload is sent at most once, and only after a
    model call. *)
Theorem session_follows_protocol (w : WsEnv) (chunk_id : Z) (st : Store) :
  session_shape (trace (fst (run_session w chunk_id st))) /\
  length (payloads (trace (fst (run_session w chunk_id st))))
  <= model_calls (trace (fst (run_session w chunk_id st))) /\
  model_calls (trace (fst (run_session w chunk_id st))) <= 1.
Proof.
  split; [apply run_session_shape|].
  apply session_shape_counts, run_session_shape.
Qed.

(** X17.  Every request a session makes to the model is the one built
    for the requested chunk: the chunk is in the store, the user message
    frames its text between the texts the context assembler returned
    for it, with the [goal] parameter (or the default goal) as task;
    the model name and the system prompt are fixed and no output-token
    limit is passed. *)
Theorem model_request_is_for_the_chunk
  (w : WsEnv) (chunk_id : Z) (st : Store) (req : Request) :
  In (EvModelCall req) (trace (fst (run_session w chunk_id st))) ->
  exists chunk p n,
    dict_get chunk_id (CHUNKS st) = Some chunk /\
    get_adjacent_texts st chunk_id = Ok (p, n) /\
    req =
    {| model := py "gpt-4.1-nano-2025-04-14";
       input :=
         [ {| role := py "system"; content := SYSTEM_PROMPT |};
           {| role := py "user";
              content :=
                user_content p (text chunk) n
                  (qp_get (py "goal") DEFAULT_GOAL (query_params w)) |} ];
       text_format := AnnotationFormat;
       max_output_tokens := None |}.
Proof.
  destruct (on_accept w) as [e|] eqn:Ha.
  { rewrite (run_session_refused w chunk_id st Ha). simpl.
    intros [H|[]]. discriminate. }
  destruct (dict_get chunk_id (CHUNKS st)) as [chunk|] eqn:Hc.
  2:{ rewrite (run_session_unknown w chunk_id st Ha Hc). simpl.
      intros [H|[H|[]]]; discriminate. }
  rewrite (run_session_known w chunk_id st Ha Hc).
  destruct (guarded_try_cases w chunk_id chunk
              {| store := st; trace := [EvAccept] |})
    as [_ [[t2 [H2 E]]|[p [n [t1 [t2 [Hadj [H1 [H2 E]]]]]]]]];
    rewrite E; simpl.
  - intros [H|H]; [discriminate|].
    destruct H2; simpl in H; [contradiction|].
    destruct H as [H|[]]. discriminate.
  - intros [H|[H|H]]; [discriminate| |].
    + inversion H; subst. exists chunk, p, n. repeat split; trivial.
    + exfalso. apply in_app_or in H.
      destruct H as [H|H];
        [destruct H1|destruct H2]; simpl in H;
        repeat (destruct H as [H|H]; [discriminate|]); contradiction.
Qed.

Lemma model_request_is_for_the_chunk_witness :
  exists chunk p n,
    dict_get 2 (CHUNKS Sample.one_book) = Some chunk /\
    get_adjacent_texts Sample.one_book 2 = Ok (p, n) /\
    annotation_request
      (user_content (py "One.") (py "Two.") (py "Three.") (py "Summarise."))
    =
    {| model := py "gpt-4.1-nano-2025-04-14";
       input :=
         [ {| role := py "system"; content := SYSTEM_PROMPT |};
           {| role := py "user";
              content :=
                user_content p (text chunk) n (py "Summarise.") |} ];
       text_format := AnnotationFormat;
       max_output_tokens := None |}.
Proof.
  apply (@model_request_is_for_the_chunk
           (Sample.ws [(py "goal", py "Summarise.")] Sample.answers)
           2 Sample.one_book).
  vm_compute. right. left. reflexivity.
Defined.

Section SessionOutcomes.

Variable w : WsEnv.
Variable chunk_id : Z.
Variable st : Store.
Variable chunk : Chunk.
Variable m : Z.
Variables p n : str.

Let req :=
  annotation_request
    (user_content p (text chunk) n
       (qp_get (py "goal") DEFAULT_GOAL (query_params w))).

Hypothesis accepted : on_accept w = None.
Hypothesis stored : dict_get chunk_id (CHUNKS st) = Some chunk.
Hypothesis budget :
  int_of_str w (qp_get (py "max_tokens") (py "256") (query_params w))
  = Some m.
Hypothesis neighbours : get_adjacent_texts st chunk_id = Ok (p, n).

Lemma run_session_answered (response : ParsedResponse) :
  responses_parse w req = Ok response ->
  run_session w chunk_id st =
  try_except
    (fun s => deliver w response s) (ws_except w)
    {| store := st; trace := [EvAccept; EvModelCall req] |}.
Proof.
  intros Hr. rewrite (run_session_known w chunk_id st accepted stored).
  unfold try_except.
  rewrite (@ws_try_model_returns w chunk_id chunk
             {| store := st; trace := [EvAccept] |} m p n response
             budget neighbours Hr).
  reflexivity.
Qed.

End SessionOutcomes.

(** X18.  The successful exchange: for a stored chunk, with a
    [max_tokens] that parses, a model capability that returns a parsed
    annotation and a peer that stays connected, the session accepts,
    calls the model once, sends the serialised annotation as its only
    payload and closes with the normal code 1000. *)
Theorem session_delivers_annotation
  (w : WsEnv) (chunk_id : Z) (st : Store) (chunk : Chunk) (m : Z)
  (p n : str) (response : ParsedResponse) (a : Annotation) :
  on_accept w = None ->
  dict_get chunk_id (CHUNKS st) = Some chunk ->
  int_of_str w (qp_get (py "max_tokens") (py "256") (query_params w))
  = Some m ->
  get_adjacent_texts st chunk_id = Ok (p, n) ->
  responses_parse w
    (annotation_request
       (user_content p (text chunk) n
          (qp_get (py "goal") DEFAULT_GOAL (query_params w)))) = Ok response ->
  output_parsed response = Some a ->
  on_send_text w (annotation_json w a) = None ->
  on_close w 1000 None = None ->
  run_session w chunk_id st =
  ({| store := st;
      trace := [EvAccept;
                EvModelCall
                  (annotation_request
                     (user_content p (text chunk) n
                        (qp_get (py "goal") DEFAULT_GOAL (query_params w))));
                EvSendText (annotation_json w a);
                EvClose 1000 None] |}, Ok tt).
Proof.
  intros Ha Hc Hi Hadj Hr Ho Hs Hcl.
  rewrite (@run_session_answered w chunk_id st chunk m p n Ha Hc Hi Hadj
             response Hr).
  unfold try_except, deliver, websocket_send_text, websocket_close, bind,
    emit, modify, outcome. rewrite Ho. simpl. rewrite Hs. simpl.
  now rewrite Hcl.
Qed.

Lemma session_delivers_annotation_witness :
  run_session (Sample.ws [] Sample.answers) 2 Sample.one_book =
  ({| store := Sample.one_book;
      trace := [EvAccept;
                EvModelCall
                  (annotation_request
                     (user_content (py "One.") (py "Two.") (py "Three.")
                        DEFAULT_GOAL));
                EvSendText (py "A count.");
                EvClose 1000 None] |}, Ok tt).
Proof.
  apply (@session_delivers_annotation (Sample.ws [] Sample.answers) 2
           Sample.one_book
           {| book_id := 1; text := py "Two."; annotation := [] |} 256
           (py "One.") (py "Three.")
           {| output_parsed := Some Sample.note |} Sample.note);
    reflexivity.
Defined.

(** X19.  When the model capability returns without a parsed
    annotation ([output_parsed] is None), nothing is sent: the attribute
    error raised by [annotation.json()] is caught and the session closes
    with code 4001 and the text of that error. *)
Theorem session_without_parsed_output
  (w : WsEnv) (chunk_id : Z) (st : Store) (chunk : Chunk) (m : Z)
  (p n : str) (response : ParsedResponse) :
  on_accept w = None ->
  dict_get chunk_id (CHUNKS st) = Some chunk ->
  int_of_str w (qp_get (py "max_tokens") (py "256") (query_params w))
  = Some m ->
  get_adjacent_texts st chunk_id = Ok (p, n) ->
  responses_parse w
    (annotation_request
       (user_content p (text chunk) n
          (qp_get (py "goal") DEFAULT_GOAL (query_params w)))) = Ok response ->
  output_parsed response = None ->
  fst (run_session w chunk_id st) =
  {| store := st;
     trace := [EvAccept;
               EvModelCall
                 (annotation_request
                    (user_content p (text chunk) n
                       (qp_get (py "goal") DEFAULT_GOAL (query_params w))));
               EvClose 4001
                 (Some (exc_str w
                    (AttributeError
                       (py "'NoneType' object has no attribute 'json'"))))] |}.
Proof.
  intros Ha Hc Hi Hadj Hr Ho.
  rewrite (@run_session_answered w chunk_id st chunk m p n Ha Hc Hi Hadj
             response Hr).
  unfold try_except, deliver. rewrite Ho.
  unfold raise, ws_except, is_Exception, websocket_close, bind, emit, modify,
    outcome. simpl.
  now destruct (on_close w 4001 _).
Qed.

Lemma session_without_parsed_output_witness :
  fst (run_session (Sample.ws [] (Ok {| output_parsed := None |})) 2
         Sample.one_book) =
  {| store := Sample.one_book;
     trace := [EvAccept;
               EvModelCall
                 (annotation_request
                    (user_content (py "One.") (py "Two.") (py "Three.")
                       DEFAULT_GOAL));
               EvClose 4001
                 (Some (py "'NoneType' object has no attribute 'json'"))] |}.
Proof.
  apply (@session_without_parsed_output
           (Sample.ws [] (Ok {| output_parsed := None |})) 2 Sample.one_book
           {| book_id := 1; text := py "Two."; annotation := [] |} 256
           (py "One.") (py "Three.") {| output_parsed := None |});
    reflexivity.
Defined.

(** X20.  When the peer is gone by the time the payload is sent
    ([send_text] raises WebSocketDisconnect), the handler returns
    normally: it makes no close call and reports no error. *)
Theorem session_ends_silently_on_disconnect
  (w : WsEnv) (chunk_id : Z) (st : Store) (chunk : Chunk) (m : Z)
  (p n : str) (response : ParsedResponse) (a : Annotation) :
  on_accept w = None ->
  dict_get chunk_id (CHUNKS st) = Some chunk ->
  int_of_str w (qp_get (py "max_tokens") (py "256") (query_params w))
  = Some m ->
  get_adjacent_texts st chunk_id = Ok (p, n) ->
  responses_parse w
    (annotation_request
       (user_content p (text chunk) n
          (qp_get (py "goal") DEFAULT_GOAL (query_params w)))) = Ok response ->
  output_parsed response = Some a ->
  on_send_text w (annotation_json w a) = Some WebSocketDisconnect ->
  run_session w chunk_id st =
  ({| store := st;
      trace := [EvAccept;
                EvModelCall
                  (annotation_request
                     (user_content p (text chunk) n
                        (qp_get (py "goal") DEFAULT_GOAL (query_params w))));
                EvSendText (annotation_json w a)] |}, Ok tt).
Proof.
  intros Ha Hc Hi Hadj Hr Ho Hs.
  rewrite (@run_session_answered w chunk_id st chunk m p n Ha Hc Hi Hadj
             response Hr).
  unfold try_except, deliver, websocket_send_text, bind, emit, modify,
    outcome. rewrite Ho. simpl. now rewrite Hs.
Qed.

Lemma session_ends_silently_on_disconnect_witness :
  run_session
    {| query_params := [];
       on_accept := None;
       on_close := fun _ _ => None;
       on_send_text := fun _ => Some WebSocketDisconnect;
       responses_parse := fun _ => Sample.answers;
       int_of_str := Sample.int_ascii;
       exc_str := Sample.message;
       annotation_json := summary |} 3 Sample.one_book
  = ({| store := Sample.one_book;
        trace := [EvAccept;
                  EvModelCall
                    (annotation_request
                       (user_content (py "Two.") (py "Three.") []
                          DEFAULT_GOAL));
                  EvSendText (py "A count.")] |}, Ok tt).
Proof.
  apply (@session_ends_silently_on_disconnect
           {| query_params := [];
              on_accept := None;
              on_close := fun _ _ => None;
              on_send_text := fun _ => Some WebSocketDisconnect;
              responses_parse := fun _ => Sample.answers;
              int_of_str := Sample.int_ascii;
              exc_str := Sample.message;
              annotation_json := summary |} 3 Sample.one_book
           {| book_id := 1; text := py "Three."; annotation := [] |} 256
           (py "Two.") [] {| output_parsed := Some Sample.note |}
           Sample.note); reflexivity.
Defined.

(** X21.  A cancellation raised by the call to the model capability is
    not an [Exception]: neither [except] clause takes it, so it leaves
    the handler as it is and the channel is not closed by the handler. *)
Theorem session_cancelled_during_model_call
  (w : WsEnv) (chunk_id : Z) (st : Store) (chunk : Chunk) (m : Z)
  (p n : str) :
  on_accept w = None ->
  dict_get chunk_id (CHUNKS st) = Some chunk ->
  int_of_str w (qp_get (py "max_tokens") (py "256") (query_params w))
  = Some m ->
  get_adjacent_texts st chunk_id = Ok (p, n) ->
  responses_parse w
    (annotation_request
       (user_content p (text chunk) n
          (qp_get (py "goal") DEFAULT_GOAL (query_params w))))
  = Raise CancelledError ->
  run_session w chunk_id st =
  ({| store := st;
      trace := [EvAccept;
                EvModelCall
                  (annotation_request
                     (user_content p (text chunk) n
                        (qp_get (py "goal") DEFAULT_GOAL
                           (query_params w))))] |},
   Raise CancelledError).
Proof.
  intros Ha Hc Hi Hadj Hr.
  rewrite (run_session_known w chunk_id st Ha Hc). unfold try_except.
  rewrite (@ws_try_model_raises w chunk_id chunk
             {| store := st; trace := [EvAccept] |} m p n CancelledError
             Hi Hadj Hr).
  reflexivity.
Qed.

Lemma session_cancelled_during_model_call_witness :
  run_session (Sample.ws [] (Raise CancelledError)) 1 Sample.one_book =
  ({| store := Sample.one_book;
      trace := [EvAccept;
                EvModelCall
                  (annotation_request
                     (user_content [] (py "One.") (py "Two.")
                        DEFAULT_GOAL))] |},
   Raise CancelledError).
Proof.
  apply (@session_cancelled_during_model_call
           (Sample.ws [] (Raise CancelledError)) 1 Sample.one_book
           {| book_id := 1; text := py "One."; annotation := [] |} 256
           [] (py "Two.")); reflexivity.
Defined.

(* ------------------------------------------------------------------ *)
(** * The cleanup step on every text *)
(* ------------------------------------------------------------------ *)

Section FindFacts.

Lemma firstn_exact (a b : str) : firstn (length a) (a ++ b) = a.
Proof. induction a as [|x a IH]; simpl; [now destruct b|now rewrite IH]. Qed.

Lemma skipn_exact (a b : str) : skipn (length a) (a ++ b) = b.
Proof. induction a as [|x a IH]; simpl; [reflexivity|exact IH]. Qed.

Lemma startswith_app_true (l x y : str) :
  startswith l x = true -> startswith l (x ++ y) = true.
Proof.
  unfold startswith. destruct (strip_prefix l x) as [r|] eqn:E;
    [|discriminate]. intros _. apply strip_prefix_eq in E. subst x.
  now rewrite <- app_assoc, strip_prefix_app.
Qed.

Lemma startswith_self (l : str) : startswith l l = true.
Proof. rewrite <- (app_nil_r l) at 2. apply startswith_app. Qed.

Lemma find_here (l s : str) : startswith l s = true -> find l s = Some 0.
Proof. intros H. destruct s; simpl; now rewrite H. Qed.

(** The leftmost occurrence splits the text. *)
Lemma find_split (l s : str) :
  forall i, find l s = Some i ->
  exists pre rest,
    s = pre ++ l ++ rest /\ length pre = i /\
    find l (pre ++ l) = Some (length pre).
Proof.
  induction s as [|c s IH]; intros i H.
  - simpl in H. destruct (startswith l []) eqn:E; [|discriminate].
    inversion H; subst. unfold startswith in E.
    destruct (strip_prefix l []) as [r|] eqn:Er; [|discriminate].
    apply strip_prefix_eq in Er. exists [], r. simpl.
    repeat split; trivial. apply find_here, startswith_self.
  - rewrite find_cons in H. destruct (startswith l (c :: s)) eqn:E.
    + inversion H; subst. unfold startswith in E.
      destruct (strip_prefix l (c :: s)) as [r|] eqn:Er; [|discriminate].
      apply strip_prefix_eq in Er. exists [], r. simpl.
      repeat split; trivial. apply find_here, startswith_self.
    + destruct (find l s) as [i'|] eqn:Ef; [|discriminate].
      inversion H; subst. destruct (IH _ eq_refl) as [pre [rest [Hs [Hl Hf]]]].
      exists (c :: pre), rest. simpl. repeat split.
      * now rewrite Hs.
      * now rewrite Hl.
      * rewrite Hf.
        destruct (startswith l (c :: pre ++ l)) eqn:E'; [|reflexivity].
        assert (E2 : startswith l ((c :: pre ++ l) ++ rest) = true)
          by (now apply startswith_app_true).
        simpl in E2. rewrite <- app_assoc, <- Hs in E2. congruence.
Qed.

Lemma find_none_skipn (l s : str) (k : nat) :
  find l s = None -> find l (skipn k s) = None.
Proof.
  revert s; induction k as [|k IH]; intros s H; [exact H|].
  destruct s as [|c s]; [exact H|]. simpl.
  apply IH. eapply find_none_tail; eassumption.
Qed.

Lemma find_nil_none (l : str) : l <> [] -> find l [] = None.
Proof. destruct l; [congruence|reflexivity]. Qed.

End FindFacts.

Module MarkerFacts.
Import Re ReFacts SubFacts.

Section Markers.

Variables l1 l2 : str.
Hypothesis l1_nonempty : l1 <> [].
Hypothesis l2_nonempty : l2 <> [].

Let header := Cat (Lit l1) (Cat AnyPlusLazy (Lit l2)).
Let footer := Cat (Lit l1) AnyPlusGreedy.
Let closes := fun s : str =>
  match strip_prefix l2 s with Some s' => Some s' | None => None end.

(** Without a closing literal after its first character, [.+?] and the
    closing literal do not match. *)
Lemma lazy_plus_none (r : str) :
  find l2 (skipn 1 r) = None -> lazy_plus closes r = None.
Proof.
  induction r as [|c r IH]; intros H; [reflexivity|].
  simpl in H. simpl.
  pose proof (find_none_startswith _ _ H) as Hs.
  unfold closes at 1. unfold startswith in Hs.
  destruct (strip_prefix l2 r); [discriminate|].
  apply IH. now apply find_none_skipn.
Qed.

(** A text with no closing literal from position [length l1 + 1] on
    holds no marker. *)
Lemma header_scan_unclosed (s : str) :
  find l2 (skipn (length l1 + 1) s) = None ->
  sub_scan header [] 0 s = s.
Proof.
  induction s as [|c s IH]; intros H.
  - rewrite sub_scan_0. unfold header. simpl.
    destruct l1; [congruence|reflexivity].
  - assert (Hm : match_here header (c :: s) Some = None).
    { unfold header. simpl match_here.
      destruct (strip_prefix l1 (c :: s)) as [r|] eqn:E; [|reflexivity].
      apply strip_prefix_eq in E. apply lazy_plus_none.
      rewrite E, (Nat.add_comm (length l1) 1) in H.
      rewrite <- skipn_skipn, skipn_exact in H. exact H. }
    rewrite sub_scan_0, Hm. f_equal. apply IH.
    replace (skipn (length l1 + 1) s)
      with (skipn 1 (skipn (length l1 + 1) (c :: s))).
    + now apply find_none_skipn.
    + rewrite skipn_skipn. replace (1 + (length l1 + 1))
        with (S (length l1 + 1)) by lia. reflexivity.
Qed.

(** The substitution of the header pattern is the deletion of markers. *)
Lemma header_sub_is_delete_markers (rounds : nat) :
  forall s, length s <= rounds ->
  sub header [] s = delete_markers rounds l1 l2 s.
Proof.
  induction rounds as [|rounds IH]; intros s Hlen.
  - destruct s; [|simpl in Hlen; lia]. unfold sub, header. simpl.
    destruct l1; [congruence|reflexivity].
  - cbn [delete_markers].
    destruct (find l1 s) as [i|] eqn:Ef.
    2:{ unfold sub, header. now apply sub_scan_absent. }
    destruct (find_split _ _ Ef) as [pre [rest0 [Hs [Hi Hpre]]]].
    assert (Hafter : skipn (i + length l1 + 1) s = skipn 1 rest0).
    { rewrite Hs, <- Hi.
      replace (length pre + length l1 + 1)
        with (1 + (length l1 + length pre)) by lia.
      rewrite <- skipn_skipn, <- skipn_skipn.
      now rewrite skipn_exact, skipn_exact. }
    rewrite Hafter.
    destruct (find l2 (skipn 1 rest0)) as [j|] eqn:Ec.
    + destruct rest0 as [|t0 after];
        [change (skipn 1 (@nil char)) with (@nil char) in Ec;
         rewrite find_nil_none in Ec by assumption; discriminate|].
      simpl skipn in Ec |- *.
      destruct (find_split _ _ Ec) as [mid [rest [Ha [Hj Hmid]]]].
      assert (Hrest : skipn (j + length l2) after = rest).
      { rewrite Ha, <- Hj.
        replace (length mid + length l2) with (length l2 + length mid)
          by lia.
        rewrite <- skipn_skipn. now rewrite skipn_exact, skipn_exact. }
      rewrite Hrest.
      assert (Hfirst : firstn i s = pre).
      { rewrite Hs, <- Hi. apply firstn_exact. }
      rewrite Hfirst. rewrite Hs, Ha.
      unfold header. rewrite header_sub_one by assumption. f_equal.
      apply IH. rewrite Hs, Ha in Hlen.
      rewrite !length_app in Hlen. simpl in Hlen.
      rewrite !length_app in Hlen. lia.
    + rewrite Hs. unfold sub, header.
      rewrite sub_scan_before by exact Hpre. f_equal.
      apply header_scan_unclosed.
      rewrite (Nat.add_comm (length l1) 1).
      rewrite <- skipn_skipn, skipn_exact. exact Ec.
Qed.

(** A text no longer than the literal cannot hold the literal and one
    more character. *)
Lemma footer_scan_short (s : str) :
  length s <= length l1 -> sub_scan footer [] 0 s = s.
Proof.
  unfold footer. induction s as [|c s IH]; intros Hlen.
  - now apply footer_scan_nil.
  - destruct (match_here (Cat (Lit l1) AnyPlusGreedy) (c :: s) Some)
      as [r|] eqn:E.
    + apply (footer_match_some l1) in E. destruct E as [_ [x [t Hs]]].
      rewrite Hs in Hlen. rewrite length_app in Hlen. simpl in Hlen. lia.
    + rewrite (@footer_scan_step l1 c s E). f_equal. apply IH.
      simpl in Hlen. lia.
Qed.

(** The substitution of the footer pattern is the cut at the literal. *)
Lemma footer_sub_is_cut (s : str) : sub footer [] s = cut_at l1 s.
Proof.
  unfold cut_at. destruct (find l1 s) as [i|] eqn:Ef.
  2:{ unfold sub, footer. now apply sub_scan_absent. }
  destruct (find_split _ _ Ef) as [pre [rest [Hs [Hi Hpre]]]].
  assert (Hlen : length s = i + length l1 + length rest).
  { rewrite Hs, !length_app. lia. }
  destruct rest as [|c rest].
  - replace (i + length l1 <? length s) with false
      by (symmetry; apply Nat.ltb_ge; simpl in Hlen; lia).
    rewrite Hs at 1. unfold sub, footer.
    rewrite sub_scan_before by exact Hpre.
    rewrite footer_scan_short by (rewrite app_nil_r; lia).
    now rewrite Hs.
  - replace (i + length l1 <? length s) with true
      by (symmetry; apply Nat.ltb_lt; simpl in Hlen; lia).
    rewrite Hs at 1. unfold footer. rewrite footer_sub by assumption.
    rewrite Hs, <- Hi. symmetry. apply firstn_exact.
Qed.

End Markers.

End MarkerFacts.

Lemma STARS_nonempty : STARS <> [].
Proof. discriminate. Qed.

(** C2, as the code has it.  For every raw text the cleanup step is
    three steps in a row.  First every START marker is deleted, leftmost
    first: the literal [*** START OF THIS PROJECT GUTENBERG EBOOK], one
    character at least, and what follows up to and including the nearest
    [***]; the text before, between and after the markers stays, and a
    START literal with no [***] after it stays too.  Then the text so
    obtained is cut at its first literal
    [*** END OF THIS PROJECT GUTENBERG EBOOK], when something follows it.
    Then the result is trimmed. *)
Theorem clean_gutenberg_on_every_text (raw : str) :
  clean_gutenberg raw = strip (cut_at_footer (remove_start_markers raw)) /\
  trimmed (clean_gutenberg raw).
Proof.
  split; [|unfold clean_gutenberg; apply strip_trimmed].
  unfold clean_gutenberg, cut_at_footer, remove_start_markers,
    GUTEN_HEADER, GUTEN_FOOTER.
  rewrite (@MarkerFacts.header_sub_is_delete_markers HEADER_LIT STARS
             HEADER_LIT_nonempty STARS_nonempty (length raw) raw
             (Nat.le_refl _)).
  now rewrite (@MarkerFacts.footer_sub_is_cut FOOTER_LIT FOOTER_LIT_nonempty).
Qed.

Example clean_gutenberg_header_eats_footer_stars :
  clean_gutenberg
    (py "A *** START OF THIS PROJECT GUTENBERG EBOOK X *** END OF THIS PROJECT GUTENBERG EBOOK Y *** Z")
  = py "A  END OF THIS PROJECT GUTENBERG EBOOK Y *** Z"
  /\ strip (cut_at_footer (remove_start_markers
    (py "A *** START OF THIS PROJECT GUTENBERG EBOOK X *** END OF THIS PROJECT GUTENBERG EBOOK Y *** Z")))
  = py "A  END OF THIS PROJECT GUTENBERG EBOOK Y *** Z".
Proof. vm_compute. split; reflexivity. Qed.

Example clean_gutenberg_footer_only :
  clean_gutenberg
    (py "Body. *** END OF THIS PROJECT GUTENBERG EBOOK EMMA *** licence")
  = py "Body.".
Proof. vm_compute. reflexivity. Qed.

Example clean_gutenberg_two_markers :
  clean_gutenberg
    (py "a*** START OF THIS PROJECT GUTENBERG EBOOK ONE ***b*** START OF THIS PROJECT GUTENBERG EBOOK TWO ***c")
  = py "abc".
Proof. vm_compute. reflexivity. Qed.

Example clean_gutenberg_unclosed_marker :
  clean_gutenberg
    (py "x *** START OF THIS PROJECT GUTENBERG EBOOK no closing stars")
  = py "x *** START OF THIS PROJECT GUTENBERG EBOOK no closing stars".
Proof. vm_compute. reflexivity. Qed.

Example clean_gutenberg_footer_at_the_end :
  clean_gutenberg (py "Finis. *** END OF THIS PROJECT GUTENBERG EBOOK")
  = py "Finis. *** END OF THIS PROJECT GUTENBERG EBOOK".
Proof. vm_compute. reflexivity. Qed.

Example int_ascii_examples :
  Sample.int_ascii (py "-5") = Some (-5)%Z /\
  Sample.int_ascii (py "+5") = Some 5%Z /\
  Sample.int_ascii (py " 5 ") = Some 5%Z /\
  Sample.int_ascii (py "1_0") = Some 10%Z /\
  Sample.int_ascii (py "_1") = None /\
  Sample.int_ascii (py "1__0") = None /\
  Sample.int_ascii (py "1_") = None /\
  Sample.int_ascii (py "lots") = None /\
  Sample.int_ascii [] = None.
Proof. vm_compute. repeat split; reflexivity. Qed.
